(** * test-codecs.js: the codec probe and its report

    A shallow embedding of [src/test-codecs.js].  The script loads each video
    file into an mpv player, reads six properties, decides whether VidVuR
    would have had to convert the file, and prints a report.

    Conventions.
    - A JavaScript string is a [string]: a sequence of code units below 256
      (the Latin-1 range), which covers every identifier that mpv reports and
      that the rule lists contain.
    - [Date.now()] values and their differences are integers, kept in [Z].
    - Property values that are numbers are IEEE doubles, kept as [spec_float]
      (sign, mantissa and binary exponent).
    - [console.log] output is not modelled; the values that the script
      computes and stores are. *)

From Stdlib Require Import String Ascii List Bool Arith ZArith QArith Lia.
From Stdlib Require Import Permutation.
From Stdlib Require Import SpecFloat DecimalString.
Import ListNotations.

Local Open Scope list_scope.
Local Open Scope bool_scope.
Local Open Scope string_scope.

(** ** JavaScript strings *)

Module JsString.

(** [\d] without the unicode flag: the ten ASCII digits. *)
Definition isDigit (c : ascii) : bool :=
  let n := nat_of_ascii c in (48 <=? n)%nat && (n <=? 57)%nat.

(** The lower-case mapping of one Latin-1 code unit: [A-Z], and
    [U+00C0-U+00DE] but for the multiplication sign [U+00D7]. *)
Definition lowerUnit (c : ascii) : ascii :=
  let n := nat_of_ascii c in
  if ((65 <=? n)%nat && (n <=? 90)%nat)
     || ((192 <=? n)%nat && (n <=? 222)%nat && negb (n =? 215)%nat)
  then ascii_of_nat (n + 32)
  else c.

(** [String.prototype.toLowerCase]. *)
Fixpoint toLowerCase (s : string) : string :=
  match s with
  | EmptyString => EmptyString
  | String c s' => String (lowerUnit c) (toLowerCase s')
  end.

(** [s.startsWith(sub)]: [sub] is read off the front of [s]. *)
Fixpoint startsWith (s sub : string) {struct sub} : bool :=
  match sub, s with
  | EmptyString, _ => true
  | String _ _, EmptyString => false
  | String a sub', String b s' => Ascii.eqb a b && startsWith s' sub'
  end.

(** [String.prototype.includes]: [sub] occurs at some position of [s]. *)
Fixpoint includes (s sub : string) : bool :=
  startsWith s sub
  || match s with
     | EmptyString => false
     | String _ s' => includes s' sub
     end.

(** [s.replace(/(\d)/, '.$1')]: the regular expression has no [g] flag, so
    only the first digit is replaced, by a dot followed by that digit. *)
Fixpoint replaceFirstDigit (s : string) : string :=
  match s with
  | EmptyString => EmptyString
  | String c s' =>
      if isDigit c then String "." (String c s')
      else String c (replaceFirstDigit s')
  end.

(** Does [s] hold a digit at all? *)
Fixpoint hasDigit (s : string) : bool :=
  match s with
  | EmptyString => false
  | String c s' => isDigit c || hasDigit s'
  end.

(** [sub] occurs in [s], as a proposition. *)
Definition Substring (sub s : string) : Prop :=
  exists pre post, s = pre ++ sub ++ post.

End JsString.
Import JsString.

(** ** The rule lists (lines 14-29) *)

Definition VIDVUR_UNSUPPORTED_CODECS : list string :=
  [ "h263"; "h263p";
    "mpeg1video"; "mpeg2video";
    "msmpeg4v2"; "msmpeg4v3";
    "wmv1"; "wmv2"; "wmv3";
    "vc1"; "rv40";
    "svq1"; "svq3";
    "cinepak"; "indeo3"; "indeo5" ].

Definition VIDVUR_CONVERSION_FORMATS : list string :=
  [ ".mov"; ".mkv"; ".avi"; ".flv"; ".wmv";
    ".mpg"; ".mpeg"; ".3gp" ].

(** ** Classification (lines 95-103 and 114-119 of [testVideo]) *)

(** Line 100: [const normalized = unsupported.replace(/(\d)/, '.$1')]. *)
Definition normalized (unsupported : string) : string :=
  replaceFirstDigit unsupported.

(** Lines 98-102: [rules.some(unsupported => ...)]. *)
Definition codecUnsupported (rules : list string) (codecLower : string) : bool :=
  existsb
    (fun unsupported =>
       includes codecLower unsupported
       || includes codecLower (normalized unsupported))
    rules.

(** [formats.includes(ext)] on an array of strings. *)
Definition arrayIncludes (formats : list string) (ext : string) : bool :=
  existsb (String.eqb ext) formats.

Definition UnsupportedCodec : string := "Unsupported codec".
Definition UnsupportedContainer : string := "Container format requires conversion".

(** The verdict of [testVideo] on a detected codec string and the lower-cased
    extension [ext] of line 45: the pair of the [wouldConvert] and [reason]
    fields of the stored result; [None] is [null].  The script runs it on the
    two lists above. *)
Definition classify (rules formats : list string) (codec ext : string)
  : bool * option string :=
  let codecLower := toLowerCase codec in
  let unsupported := codecUnsupported rules codecLower in
  let wouldConvert := unsupported || arrayIncludes formats ext in
  (wouldConvert,
   if wouldConvert
   then (if unsupported then Some UnsupportedCodec else Some UnsupportedContainer)
   else None).

(** The spec's [canonicalizeCodec], put together from the two normalisation
    steps of the code: lower-casing (line 97) and dot insertion (line 100). *)
Definition canonicalizeCodec (raw : string) : string :=
  normalized (toLowerCase raw).

(** The codec test of lines 98-102, as a proposition: some rule entry, or its
    dot-inserted form, occurs in the lower-cased codec string. *)
Definition CodecMatches (rules : list string) (codecLower : string) : Prop :=
  exists unsupported,
    In unsupported rules
    /\ (Substring unsupported codecLower
        \/ Substring (normalized unsupported) codecLower).


(** ** Values, exceptions and stored results *)

(** What [player.getProperty] can resolve with: a JSON value.  A number
    comes with its string conversion [String(x)], which is not computed here;
    of an array or an object the script can observe that conversion only. *)
Inductive value :=
| VUndefined
| VNull
| VBool (b : bool)
| VNumber (x : spec_float) (shown : string)
| VString (s : string)
| VObject (shown : string).

(** JavaScript truthiness: what [!v] and [v ? _ : _] test. *)
Definition truthy (v : value) : bool :=
  match v with
  | VUndefined | VNull => false
  | VBool b => b
  | VNumber (S754_zero _) _ | VNumber S754_nan _ => false
  | VNumber _ _ => true
  | VString s => negb (s =? "")
  | VObject _ => true
  end.

(** What [JSON.stringify(error, Object.getOwnPropertyNames(error))] does. *)
Inductive stringified :=
| JsonText (s : string)
| JsonUndefined
| JsonThrows.

(** A value that the player rejects a request with, as lines 140-142 observe
    it: [message] is [error?.message], with [""] for every falsy one (a
    truthy message is a string); [asString] is [String(error)]. *)
Record rejection := {
  message : string;
  json : stringified;
  asString : string
}.

(** What can be thrown inside [testVideo]. *)
Inductive exn :=
| CodecNotDetected                              (* line 92 *)
| NotAFunction (callee : string)                (* TypeError of a call *)
| Rejected (r : rejection).                     (* a rejected request *)

(** Lines 138-143, the message that the [catch] block stores. *)
Definition errorMsg (error : exn) : string :=
  match error with
  | CodecNotDetected => "Could not detect video codec"
  | NotAFunction callee => callee ++ " is not a function"
  | Rejected r =>
      if message r =? "" then
        match json r with
        | JsonText s => if s =? "" then "Unknown error" else s
        | JsonUndefined => "Unknown error"
        | JsonThrows => asString r
        end
      else message r
  end.

(** The object of lines 105-120. *)
Record probed := {
  filename : string;
  codec : string;
  format : value;
  resolution : string;
  fps : string;
  duration : string;
  loadTime : Z;
  wouldConvert : bool;
  reason : option string
}.

(** An element of the [results] array: the object of lines 105-120 or the
    one of lines 146-150. *)
Inductive result :=
| Succeeded (r : probed)
| Failed (filename error : string).

Definition success (r : result) : bool :=
  match r with
  | Succeeded _ => true
  | Failed _ _ => false
  end.


(** ** The world around the script *)

(** The requests that [testVideo] makes of its environment. *)
Inductive event :=
| DateNow
| Load (filePath : string)
| SetTimeout (ms : Z)
| GetProperty (name : string).

(** Everything the script takes from Node and from the player.  The answers
    of the clock and of the player may depend on all that was asked before:
    each takes the list of earlier events, oldest first. *)
Record runtime := {
  basename : string -> string;                 (* path.basename *)
  extname : string -> string;                  (* path.extname *)
  now : list event -> Z;                       (* Date.now() *)
  loadOutcome : list event -> string -> option rejection;
                                               (* player.load: None resolves *)
  propertyOutcome : list event -> string -> rejection + value
                                               (* player.getProperty *)
}.

(** The string conversion of a template literal, [`${v}`]. *)
Definition toStr (v : value) : string :=
  match v with
  | VUndefined => "undefined"
  | VNull => "null"
  | VBool true => "true"
  | VBool false => "false"
  | VNumber _ shown => shown
  | VString s => s
  | VObject shown => shown
  end.

(** The decimal digits of an integer that is not negative. *)
Definition decimal (n : Z) : string :=
  NilZero.string_of_uint (N.to_uint (Z.to_N n)).

(** The integer nearest to [100 * m * 2^e], the larger one of two. *)
Definition hundredths (m : positive) (e : Z) : Z :=
  if (0 <=? e)%Z then (100 * Z.pos m * 2 ^ e)%Z
  else ((200 * Z.pos m + 2 ^ (- e)) / 2 ^ (1 - e))%Z.

(** Is [m * 2^e] at least [10^21]? *)
Definition atLeast1e21 (m : positive) (e : Z) : bool :=
  if (0 <=? e)%Z then (10 ^ 21 <=? Z.pos m * 2 ^ e)%Z
  else (10 ^ 21 * 2 ^ (- e) <=? Z.pos m)%Z.

(** [x.toFixed(2)] on a number [x] whose string conversion is [shown]:
    that conversion when [x] is not finite or is [10^21] and more in
    magnitude, else the sign and the nearest number of hundredths, written
    with two decimals. *)
Definition toFixed2 (x : spec_float) (shown : string) : string :=
  match x with
  | S754_zero _ => "0.00"
  | S754_finite negative m e =>
      if atLeast1e21 m e then shown
      else
        let n := hundredths m e in
        (if negative then "-" else "")
        ++ decimal (n / 100) ++ "."
        ++ decimal (n mod 100 / 10) ++ decimal (n mod 10)
  | _ => shown
  end.

(** The mutable state: the requests made so far and the global [results]. *)
Record state := {
  history : list event;
  results : list result
}.

Inductive outcome (A : Type) :=
| Returns (a : A)
| Throws (e : exn).
Arguments Returns {A} a.
Arguments Throws {A} e.

(** A computation changes the state and returns or throws; what it did to
    the state before a throw stays done. *)
Definition M (A : Type) : Type := state -> outcome A * state.

Definition ret {A} (a : A) : M A := fun st => (Returns a, st).

Definition throw {A} (e : exn) : M A := fun st => (Throws e, st).

Definition bind {A B} (m : M A) (k : A -> M B) : M B :=
  fun st =>
    match m st with
    | (Returns a, st') => k a st'
    | (Throws e, st') => (Throws e, st')
    end.

Definition tryCatch {A} (m : M A) (handler : exn -> M A) : M A :=
  fun st =>
    match m st with
    | (Returns a, st') => (Returns a, st')
    | (Throws e, st') => handler e st'
    end.

Notation "x <- m ;; k" := (bind m (fun x => k))
  (at level 61, m at next level, right associativity).

Definition recordEvent (e : event) (st : state) : state :=
  {| history := (history st ++ [e])%list; results := results st |}.

(** [results.push(r)]. *)
Definition push (r : result) : M unit :=
  fun st =>
    (Returns tt, {| history := history st; results := (results st ++ [r])%list |}).

(** [Date.now()]. *)
Definition dateNow (rt : runtime) : M Z :=
  fun st => (Returns (now rt (history st)), recordEvent DateNow st).

(** [await player.load(filePath)]. *)
Definition playerLoad (rt : runtime) (filePath : string) : M unit :=
  fun st =>
    (match loadOutcome rt (history st) filePath with
     | None => Returns tt
     | Some r => Throws (Rejected r)
     end,
     recordEvent (Load filePath) st).

(** [await new Promise(resolve => setTimeout(resolve, ms))]. *)
Definition setTimeout (ms : Z) : M unit :=
  fun st => (Returns tt, recordEvent (SetTimeout ms) st).

(** [await player.getProperty(name)]. *)
Definition getProperty (rt : runtime) (name : string) : M value :=
  fun st =>
    (match propertyOutcome rt (history st) name with
     | inr v => Returns v
     | inl r => Throws (Rejected r)
     end,
     recordEvent (GetProperty name) st).

(** ** [testVideo] (lines 43-154) *)

(** The pattern of lines 59-88:
    [try { x = await player.getProperty(name) } catch (e) { x = null }]. *)
Definition getPropertyOrNull (rt : runtime) (name : string) : M value :=
  tryCatch (getProperty rt name) (fun _ => ret VNull).

(** [x ? x.toFixed(2) : 'N/A'], for the variable called [name]. *)
Definition fixedOrNA (name : string) (x : value) : exn + string :=
  if truthy x then
    match x with
    | VNumber n shown => inr (toFixed2 n shown)
    | _ => inl (NotAFunction (name ++ ".toFixed"))
    end
  else inr "N/A".

(** Lines 90-120: from the six values read to the object to store.  A truthy
    [codec] that is no string has no [toLowerCase] method, so line 97 throws;
    on a string, [classify] does lines 97-103. *)
Definition buildResult (filename ext : string) (loadTime : Z)
    (codec format width height fps duration : value) : exn + probed :=
  if negb (truthy codec) then inl CodecNotDetected
  else
    match codec with
    | VString codecString =>
        let verdict :=
          classify VIDVUR_UNSUPPORTED_CODECS VIDVUR_CONVERSION_FORMATS
                   codecString ext in
        match fixedOrNA "fps" fps with
        | inl e => inl e
        | inr fpsText =>
            match fixedOrNA "duration" duration with
            | inl e => inl e
            | inr durationText =>
                inr {| filename := filename;
                       codec := codecString;
                       format := format;
                       resolution := toStr width ++ "x" ++ toStr height;
                       fps := fpsText;
                       duration := durationText;
                       loadTime := loadTime;
                       wouldConvert := fst verdict;
                       reason := snd verdict |}
            end
        end
    | _ => inl (NotAFunction "codec.toLowerCase")
    end.

Definition testVideo (rt : runtime) (filePath : string) : M bool :=
  let filename := basename rt filePath in
  let ext := toLowerCase (extname rt filePath) in
  tryCatch
    (startTime <- dateNow rt ;;
     _ <- playerLoad rt filePath ;;
     endTime <- dateNow rt ;;
     let loadTime := (endTime - startTime)%Z in
     _ <- setTimeout 200 ;;
     codec <- getPropertyOrNull rt "video-codec" ;;
     format <- getPropertyOrNull rt "file-format" ;;
     width <- getPropertyOrNull rt "video-params/w" ;;
     height <- getPropertyOrNull rt "video-params/h" ;;
     fps <- getPropertyOrNull rt "container-fps" ;;
     duration <- getPropertyOrNull rt "duration" ;;
     match buildResult filename ext loadTime
                       codec format width height fps duration with
     | inl e => throw e
     | inr r => _ <- push (Succeeded r) ;; ret true
     end)
    (fun error =>
       _ <- push (Failed filename (errorMsg error)) ;; ret false).

(** Lines 295-298 of [main]: [for (const file of files) await testVideo(file)]. *)
Fixpoint testEach (rt : runtime) (files : list string) : M unit :=
  match files with
  | [] => ret tt
  | file :: rest => _ <- testVideo rt file ;; testEach rt rest
  end.

(** ** [printReport] (lines 156-234) *)

(** A value stored in the [codecs] object of line 207. *)
Inductive count :=
| NaN
| Count (n : nat).

(** The own properties of [codecs], in creation order. *)
Definition object : Type := list (string * count).

Fixpoint getOwn (o : object) (k : string) : option count :=
  match o with
  | [] => None
  | (k', v) :: o' => if k =? k' then Some v else getOwn o' k
  end.

Fixpoint setOwn (o : object) (k : string) (v : count) : object :=
  match o with
  | [] => [(k, v)]
  | (k', v') :: o' =>
      if k =? k' then (k', v) :: o' else (k', v') :: setOwn o' k v
  end.

(** The methods that [{}] inherits from [Object.prototype]. *)
Definition objectPrototypeMethods : list string :=
  [ "constructor"; "__defineGetter__"; "__defineSetter__"; "hasOwnProperty";
    "__lookupGetter__"; "__lookupSetter__"; "isPrototypeOf";
    "propertyIsEnumerable"; "toString"; "valueOf"; "toLocaleString" ].

(** Lines 209-210, [if (!codecs[k]) codecs[k] = 0; codecs[k]++].
    A read of a key that [codecs] does not own goes up to [Object.prototype]:
    for the name of a method it finds a function, which is truthy, and the
    increment stores [NaN] under the key; for ["__proto__"] it finds the
    prototype itself, and the store of [NaN] through the setter is dropped.
    A stored [NaN] is falsy, so the next visit starts from 0 again. *)
Definition countCodec (codecs : object) (k : string) : object :=
  match getOwn codecs k with
  | Some (Count (S n)) => setOwn codecs k (Count (S (S n)))
  | Some (Count O) | Some NaN => setOwn codecs k (Count 1)
  | None =>
      if k =? "__proto__" then codecs
      else if arrayIncludes objectPrototypeMethods k then setOwn codecs k NaN
      else setOwn codecs k (Count 1)
  end.

(** The value of a string of digits, read after [acc]. *)
Fixpoint digitsValue (s : string) (acc : N) : option N :=
  match s with
  | EmptyString => Some acc
  | String c s' =>
      if isDigit c then digitsValue s' (acc * 10 + (N_of_ascii c - 48))%N
      else None
  end.

(** Is the key an array index: the canonical decimal form of an integer
    from 0 to 2^32 - 2? *)
Definition arrayIndex (k : string) : option N :=
  match k with
  | EmptyString => None
  | String c rest =>
      if Ascii.eqb c "0" then (if rest =? "" then Some 0%N else None)
      else
        match digitsValue k 0 with
        | Some n => if (n <=? 4294967294)%N then Some n else None
        | None => None
        end
  end.

Fixpoint insertByIndex (e : N * (string * count))
    (l : list (N * (string * count))) : list (N * (string * count)) :=
  match l with
  | [] => [e]
  | e' :: l' =>
      if (fst e <=? fst e')%N then e :: l else e' :: insertByIndex e l'
  end.

(** [Object.entries(o)]: the array-index keys in ascending order, then the
    other keys in creation order. *)
Definition entries (o : object) : list (string * count) :=
  (map snd
       (fold_right insertByIndex []
          (flat_map (fun kv => match arrayIndex (fst kv) with
                               | Some i => [(i, kv)]
                               | None => []
                               end) o))
   ++ filter (fun kv => match arrayIndex (fst kv) with
                        | Some _ => false
                        | None => true
                        end) o)%list.

(** [results.filter(r => r.success)], as the objects of lines 105-120. *)
Definition successfulOf (results : list result) : list probed :=
  flat_map (fun r => match r with
                     | Succeeded p => [p]
                     | Failed _ _ => []
                     end) results.

(** [successful.reduce((sum, r) => sum + r.loadTime, 0)]. *)
Definition sumLoadTime (successful : list probed) : Z :=
  fold_left (fun sum r => (sum + loadTime r)%Z) successful 0%Z.

(** The values that [printReport] computes and prints.  [avgLoadTime] is
    there only when the block of lines 196-203 runs; it is the exact
    quotient, before its rounding to a double.  [codecs] lists each entry
    of the object with the mark of lines 214-218. *)
Module Report.
Record t := {
  total : nat;
  successful : list probed;
  failed : list result;
  wouldConvert : list probed;
  noConversionNeeded : list probed;
  avgLoadTime : option Q;
  codecs : list (string * count * bool)
}.
End Report.

Definition printReport (results : list result) : Report.t :=
  let successful := successfulOf results in
  let failed := filter (fun r => negb (success r)) results in
  let wouldConvertList := filter (fun r => wouldConvert r) successful in
  let noConversionNeeded := filter (fun r => negb (wouldConvert r)) successful in
  let codecs := fold_left countCodec (map codec successful) [] in
  {| Report.total := length results;
     Report.successful := successful;
     Report.failed := failed;
     Report.wouldConvert := wouldConvertList;
     Report.noConversionNeeded := noConversionNeeded;
     Report.avgLoadTime :=
       if (0 <? length successful)%nat
       then Some (inject_Z (sumLoadTime successful)
                  / inject_Z (Z.of_nat (length successful)))%Q
       else None;
     Report.codecs :=
       map (fun kv =>
              (fst kv, snd kv,
               codecUnsupported VIDVUR_UNSUPPORTED_CODECS (toLowerCase (fst kv))))
           (entries codecs) |}.

(** ** A sample run *)

(** [path.posix.basename] and [path.posix.extname] of Node: the last segment
    of the path, trailing slashes dropped, and what that segment has from its
    last dot on, when the dot is not its first character and the segment is
    not [".."]. *)
Fixpoint allSlashes (s : string) : bool :=
  match s with
  | EmptyString => true
  | String c s' => Ascii.eqb c "/" && allSlashes s'
  end.

Fixpoint trimSlashes (s : string) : string :=
  match s with
  | EmptyString => EmptyString
  | String c s' =>
      if allSlashes s' then (if Ascii.eqb c "/" then "" else String c "")
      else String c (trimSlashes s')
  end.

Fixpoint afterLastSlash (s : string) : string :=
  match s with
  | EmptyString => EmptyString
  | String c s' =>
      if includes s' "/" then afterLastSlash s'
      else if Ascii.eqb c "/" then s' else s
  end.

Fixpoint fromLastDot (s : string) : string :=
  match s with
  | EmptyString => EmptyString
  | String c s' =>
      if includes s' "." then fromLastDot s'
      else if Ascii.eqb c "." then s else ""
  end.

Definition posixBasename (path : string) : string :=
  afterLastSlash (trimSlashes path).

Definition posixExtname (path : string) : string :=
  match posixBasename path with
  | EmptyString => ""
  | String c rest =>
      if String c rest =? ".." then "" else fromLastDot rest
  end.

(** How long the sample player and clock take over each request, in ms. *)
Definition sampleCost (e : event) : Z :=
  match e with
  | DateNow => 0
  | Load _ => 150
  | SetTimeout ms => ms
  | GetProperty _ => 2
  end.

Definition unavailable : rejection :=
  {| message := "property unavailable";
     json := JsonUndefined;
     asString := "[object Object]" |}.

(** A player that opens every file but those named [missing], finds an
    h264 stream of 640 by 480 in it, and has no [container-fps] for it,
    though it would have a [video-params/fps]. *)
Definition sampleRuntime : runtime :=
  {| basename := posixBasename;
     extname := posixExtname;
     now := fun h =>
       fold_left (fun t e => (t + sampleCost e)%Z) h 1700000000000%Z;
     loadOutcome := fun _ filePath =>
       if includes filePath "missing"
       then Some {| message := "Unable to load file";
                    json := JsonUndefined;
                    asString := "[object Object]" |}
       else None;
     propertyOutcome := fun _ name =>
       if name =? "video-codec" then inr (VString "h264")
       else if name =? "file-format" then inr (VString "mov,mp4,m4a,3gp,3g2,mj2")
       else if name =? "video-params/w"
       then inr (VNumber (S754_finite false 5629499534213120 (-43)) "640")
       else if name =? "video-params/h"
       then inr (VNumber (S754_finite false 8444249301319680 (-44)) "480")
       else if name =? "video-params/fps"
       then inr (VNumber (S754_finite false 7036874417766400 (-48)) "25")
       else if name =? "duration"
       then inr (VNumber (S754_finite false 7036874417766400 (-49)) "12.5")
       else inl unavailable |}.

Definition initialState : state := {| history := []; results := [] |}.

(** A stored result of a succeeded probe, for the examples on the report. *)
Definition sampleEntry (name codecName : string) (elapsed : Z) : result :=
  Succeeded {| filename := name;
               codec := codecName;
               format := VString "mov,mp4,m4a,3gp,3g2,mj2";
               resolution := "640x480";
               fps := "N/A";
               duration := "12.50";
               loadTime := elapsed;
               wouldConvert :=
                 fst (classify VIDVUR_UNSUPPORTED_CODECS
                               VIDVUR_CONVERSION_FORMATS codecName
                               (toLowerCase (posixExtname name)));
               reason :=
                 snd (classify VIDVUR_UNSUPPORTED_CODECS
                               VIDVUR_CONVERSION_FORMATS codecName
                               (toLowerCase (posixExtname name))) |}.

(** ** Vocabulary for the statements below *)

(** The requests of one probe whose load resolves, in the order made. *)
Definition probeEvents (filePath : string) : list event :=
  [ DateNow; Load filePath; DateNow; SetTimeout 200;
    GetProperty "video-codec"; GetProperty "file-format";
    GetProperty "video-params/w"; GetProperty "video-params/h";
    GetProperty "container-fps"; GetProperty "duration" ].

(** What one of the [try]/[catch] blocks of lines 59-88 leaves in its
    variable. *)
Definition orNull (o : rejection + value) : value :=
  match o with
  | inr v => v
  | inl _ => VNull
  end.

(** The value left by the [i]-th property read (counted from 0) of a probe
    of [filePath] that started after the events [h]. *)
Definition readValue (rt : runtime) (h : list event) (filePath : string)
    (i : nat) (name : string) : value :=
  orNull (propertyOutcome rt (h ++ firstn (4 + i) (probeEvents filePath))%list name).

(** What is pushed on [results] once the six values are read. *)
Definition stored (rt : runtime) (filePath : string) (built : exn + probed)
  : result :=
  match built with
  | inr r => Succeeded r
  | inl e => Failed (basename rt filePath) (errorMsg e)
  end.

(** The object that a probe of [filePath], started after [h], makes of the
    six values that its reads leave, when its load resolves. *)
Definition builtAfter (rt : runtime) (h : list event) (filePath : string)
  : exn + probed :=
  buildResult (basename rt filePath) (toLowerCase (extname rt filePath))
    (now rt (h ++ [DateNow; Load filePath])%list - now rt h)%Z
    (readValue rt h filePath 0 "video-codec")
    (readValue rt h filePath 1 "file-format")
    (readValue rt h filePath 2 "video-params/w")
    (readValue rt h filePath 3 "video-params/h")
    (readValue rt h filePath 4 "container-fps")
    (readValue rt h filePath 5 "duration").

(** The sum of the load times, written without an accumulator. *)
Fixpoint totalLoadTime (successful : list probed) : Z :=
  match successful with
  | [] => 0
  | r :: rest => loadTime r + totalLoadTime rest
  end.

(** ** The directory scan and [main] (lines 236-305, 321-331) *)

(** Line 248. *)
Definition videoExtensions : list string :=
  [ ".mp4"; ".mkv"; ".avi"; ".mov"; ".webm"; ".flv"; ".wmv"; ".mpg";
    ".mpeg"; ".m4v"; ".3gp" ].

(** An [fs.Dirent] together with what lies below it: a regular file, a
    directory with what [fs.readdirSync] gives for it ([None] when that call
    throws), or an entry that is neither (a symbolic link, a socket, ...). *)
#[local] Set Warnings "-register-all".
Inductive dirent :=
| FileEntry (name : string)
| DirectoryEntry (name : string) (content : option (list dirent))
| OtherEntry (name : string).

(** What [main] takes from the process, the file system and the player. *)
Record host := {
  player : runtime;
  join : string -> string -> string;             (* path.join *)
  argv2 : option string;                         (* process.argv[2] *)
  existsSync : string -> bool;                   (* fs.existsSync *)
  readdirSync : string -> option (list dirent);  (* on the directory to test *)
  startResolves : bool;                          (* new mpv(...), player.start() *)
  quitResolves : bool                            (* player.quit() of line 304 *)
}.

(** Line 257: is the entry name one of a video file? *)
Definition hasVideoExtension (h : host) (name : string) : bool :=
  arrayIncludes videoExtensions (toLowerCase (extname (player h) name)).

(** One turn of the loop of lines 253-260, on the array [files]: the array
    afterwards, and whether the turn ended without a throw. *)
Fixpoint scanEntry (h : host) (dir : string) (entry : dirent)
    (files : list string) {struct entry} : list string * bool :=
  match entry with
  | DirectoryEntry name None => (files, false)
  | DirectoryEntry name (Some entries) =>
      (fix scanEntries (l : list dirent) (files : list string) {struct l}
         : list string * bool :=
         match l with
         | [] => (files, true)
         | e :: l' =>
             match scanEntry h (join h dir name) e files with
             | (files', true) => scanEntries l' files'
             | (files', false) => (files', false)
             end
         end) entries files
  | FileEntry name =>
      if hasVideoExtension h name
      then ((files ++ [join h dir name])%list, true)
      else (files, true)
  | OtherEntry _ => (files, true)
  end.

(** The loop of lines 253-260 over the entries of [dir]. *)
Fixpoint scanEntries (h : host) (dir : string) (l : list dirent)
    (files : list string) {struct l} : list string * bool :=
  match l with
  | [] => (files, true)
  | e :: l' =>
      match scanEntry h dir e files with
      | (files', true) => scanEntries h dir l' files'
      | (files', false) => (files', false)
      end
  end.

(** [scanDir(dir)], lines 251-261, where [content] is what
    [fs.readdirSync(dir, { withFileTypes: true })] gives. *)
Definition scanDir (h : host) (dir : string)
    (content : option (list dirent)) (files : list string)
  : list string * bool :=
  match content with
  | None => (files, false)
  | Some entries => scanEntries h dir entries files
  end.

(** How the process ends: [process.exit(code)], or [main] resolves and
    the process ends by itself, with status 0. *)
Inductive ending :=
| Exit (code : Z)
| Finished.


(** What a run of the script leaves behind. *)
Record run := {
  ended : ending;
  startAttempted : bool;          (* lines 275-284 were reached *)
  found : list string;            (* the array [files] *)
  final : state;                  (* the requests made and [results] *)
  printed : option Report.t       (* the report, when line 301 ran *)
}.

(** A run that stops before the player is created. *)
Definition stopped (e : ending) (files : list string) : run :=
  {| ended := e;
     startAttempted := false;
     found := files;
     final := initialState;
     printed := None |}.

(** Line 240: [process.argv[2] || '.']. *)
Definition testDir (h : host) : string :=
  match argv2 h with
  | Some arg => if arg =? "" then "." else arg
  | None => "."
  end.

(** [main], with the handler that [main().catch] installs: a throw of
    [scanDir] or a rejected [player.quit()] ends in [process.exit(1)]. *)
Definition main (h : host) : run :=
  if negb (existsSync h (testDir h)) then stopped (Exit 1) []
  else
    match scanDir h (testDir h) (readdirSync h (testDir h)) [] with
    | (files, false) => stopped (Exit 1) files
    | ([], true) => stopped (Exit 0) []
    | (files, true) =>
        if negb (startResolves h)
        then {| ended := Exit 1;
                startAttempted := true;
                found := files;
                final := initialState;
                printed := None |}
        else
          match testEach (player h) files initialState with
          | (Throws _, st) =>
              {| ended := Exit 1;
                 startAttempted := true;
                 found := files;
                 final := st;
                 printed := None |}
          | (Returns _, st) =>
              {| ended := if quitResolves h then Finished else Exit 1;
                 startAttempted := true;
                 found := files;
                 final := st;
                 printed := Some (printReport (results st)) |}
          end
    end.

(** ** More vocabulary *)

(** Induction on an entry, with the property at hand for every entry of a
    readable directory. *)
Fixpoint dirent_nested_ind (P : dirent -> Prop)
    (Hfile : forall name, P (FileEntry name))
    (Hother : forall name, P (OtherEntry name))
    (Hunreadable : forall name, P (DirectoryEntry name None))
    (Hdir : forall name entries,
        Forall P entries -> P (DirectoryEntry name (Some entries)))
    (entry : dirent) {struct entry} : P entry :=
  match entry with
  | FileEntry name => Hfile name
  | OtherEntry name => Hother name
  | DirectoryEntry name None => Hunreadable name
  | DirectoryEntry name (Some entries) =>
      Hdir name entries
        ((fix all (l : list dirent) : Forall P l :=
            match l with
            | [] => Forall_nil P
            | e :: l' =>
                Forall_cons e
                  (dirent_nested_ind P Hfile Hother Hunreadable Hdir e)
                  (all l')
            end) entries)
  end.

(** Can every directory of the tree be read? *)
Fixpoint readable (entry : dirent) : bool :=
  match entry with
  | DirectoryEntry _ None => false
  | DirectoryEntry _ (Some entries) => forallb readable entries
  | _ => true
  end.

Definition readableContent (content : option (list dirent)) : bool :=
  match content with
  | None => false
  | Some entries => forallb readable entries
  end.

(** The video files at and below an entry of [dir], as full paths, in the
    order of a depth-first walk. *)
Fixpoint videoPaths (h : host) (dir : string) (entry : dirent) : list string :=
  match entry with
  | FileEntry name =>
      if hasVideoExtension h name then [join h dir name] else []
  | DirectoryEntry name (Some entries) =>
      flat_map (videoPaths h (join h dir name)) entries
  | _ => []
  end.

(** The video files that a complete scan of [dir] collects. *)
Definition videoFiles (h : host) (dir : string)
    (content : option (list dirent)) : list string :=
  match content with
  | None => []
  | Some entries => flat_map (videoPaths h dir) entries
  end.

(** [FileAt h dir entries d name]: below the directory [dir] with the
    entries [entries], the directory reached as [d] holds a regular file
    called [name]; only readable directories are entered. *)
Inductive FileAt (h : host) : string -> list dirent -> string -> string -> Prop :=
| FileHere dir entries name :
    In (FileEntry name) entries ->
    FileAt h dir entries dir name
| FileBelow dir entries sub below d name :
    In (DirectoryEntry sub (Some below)) entries ->
    FileAt h (join h dir sub) below d name ->
    FileAt h dir entries d name.

(** How often [k] occurs in [l]. *)
Definition occurrences (k : string) (l : list string) : nat :=
  length (filter (String.eqb k) l).

(** A key that [{}] does not inherit from [Object.prototype]. *)
Definition ordinaryKey (k : string) : bool :=
  negb (k =? "__proto__") && negb (arrayIncludes objectPrototypeMethods k).

(** What lines 209-210 make of the value [v] found under the key [k]
    ([None]: the object does not own [k]). *)
Definition bump (k : string) (v : option count) : option count :=
  match v with
  | Some (Count (S n)) => Some (Count (S (S n)))
  | Some (Count O) | Some NaN => Some (Count 1)
  | None =>
      if k =? "__proto__" then None
      else if arrayIncludes objectPrototypeMethods k then Some NaN
      else Some (Count 1)
  end.

(** The number that a stored value stands for in a sum; [NaN] adds nothing. *)
Definition countValue (c : count) : nat :=
  match c with
  | Count n => n
  | NaN => 0
  end.

(** The counts of an object, added up. *)
Definition objectTotal (o : object) : nat :=
  list_sum (map (fun kv => countValue (snd kv)) o).

(** The counts of the codec lines of a report, added up. *)
Definition countsTotal (lines : list (string * count * bool)) : nat :=
  list_sum (map (fun line => countValue (snd (fst line))) lines).

(** A string that lower-casing leaves as it is. *)
Definition isLowerCase (s : string) : bool := toLowerCase s =? s.

(** A runtime whose clock counts the requests made. *)
Definition countingRuntime : runtime :=
  {| basename := posixBasename;
     extname := posixExtname;
     now := fun h => Z.of_nat (length h);
     loadOutcome := loadOutcome sampleRuntime;
     propertyOutcome := propertyOutcome sampleRuntime |}.

(** A stored result whose load time is not negative. *)
Definition loadTimeNotNegative (r : result) : Prop :=
  match r with
  | Succeeded p => (0 <= loadTime p)%Z
  | Failed _ _ => True
  end.



(** The magnitudes of the load times, added up: a bound on every sum of some
    of them, in whatever order they are added. *)
Fixpoint loadTimeMagnitude (successful : list probed) : Z :=
  match successful with
  | [] => 0
  | r :: rest => Z.abs (loadTime r) + loadTimeMagnitude rest
  end.




(** A stored result whose verdict fields agree with the codec test. *)
Definition verdictAgrees (r : result) : Prop :=
  match r with
  | Succeeded p =>
      (reason p = Some UnsupportedCodec
       <-> codecUnsupported VIDVUR_UNSUPPORTED_CODECS (toLowerCase (codec p))
           = true)
      /\ (reason p = None <-> wouldConvert p = false)
  | Failed _ _ => True
  end.

(** A host for the examples: the sample player on a small tree. *)
Definition sampleTree : list dirent :=
  [ FileEntry "clip.mp4";
    FileEntry "notes.txt";
    OtherEntry "link.mkv";
    DirectoryEntry "old" (Some [FileEntry "missing.avi"; FileEntry "FILM.MOV"]);
    FileEntry "last.webm" ].

Definition sampleHost : host :=
  {| player := sampleRuntime;
     join := fun dir name => if dir =? "." then name else dir ++ "/" ++ name;
     argv2 := Some "videos";
     existsSync := fun path => path =? "videos";
     readdirSync := fun path => if path =? "videos" then Some sampleTree else None;
     startResolves := true;
     quitResolves := true |}.

(** ** Facts about strings *)

Section StringFacts.

Lemma lowerUnit_idem c : lowerUnit (lowerUnit c) = lowerUnit c.
Proof. destruct c as [[] [] [] [] [] [] [] []]; reflexivity. Qed.

Lemma isDigit_lowerUnit c : isDigit (lowerUnit c) = isDigit c.
Proof. destruct c as [[] [] [] [] [] [] [] []]; reflexivity. Qed.

Lemma toLowerCase_idem s : toLowerCase (toLowerCase s) = toLowerCase s.
Proof.
  induction s as [|c s IH]; simpl; [reflexivity|].
  now rewrite lowerUnit_idem, IH.
Qed.

Lemma hasDigit_toLowerCase s : hasDigit (toLowerCase s) = hasDigit s.
Proof.
  induction s as [|c s IH]; simpl; [reflexivity|].
  now rewrite isDigit_lowerUnit, IH.
Qed.

Lemma startsWith_spec s sub :
  startsWith s sub = true <-> exists post, s = sub ++ post.
Proof.
  revert s. induction sub as [|a sub IH]; intros s; simpl.
  - split; [intros _; now exists s | reflexivity].
  - destruct s as [|b s].
    + split; [discriminate | intros [post H]; discriminate].
    + rewrite andb_true_iff, IH. split.
      * intros [Hab [post ->]]. apply Ascii.eqb_eq in Hab. subst b.
        now exists post.
      * intros [post H]. injection H as -> ->. split.
        -- apply Ascii.eqb_refl.
        -- now exists post.
Qed.

Lemma includes_spec s sub : includes s sub = true <-> Substring sub s.
Proof.
  unfold Substring. induction s as [|c s IH].
  - simpl. rewrite orb_false_r, startsWith_spec. split.
    + intros [post H]. now exists "", post.
    + intros [pre [post H]]. destruct pre; [now exists post | discriminate].
  - cbn [includes]. rewrite orb_true_iff, startsWith_spec, IH. split.
    + intros [[post H] | [pre [post H]]].
      * now exists "", post.
      * exists (String c pre), post. simpl. now rewrite H.
    + intros [pre [post H]]. destruct pre as [|c' pre].
      * left. now exists post.
      * right. simpl in H. injection H as _ H. now exists pre, post.
Qed.

Lemma arrayIncludes_spec formats ext :
  arrayIncludes formats ext = true <-> In ext formats.
Proof.
  unfold arrayIncludes. rewrite existsb_exists. split.
  - intros [x [Hin Heq]]. apply String.eqb_eq in Heq. now subst.
  - intros Hin. exists ext. split; [assumption | apply String.eqb_refl].
Qed.

Lemma codecUnsupported_spec rules codecLower :
  codecUnsupported rules codecLower = true <-> CodecMatches rules codecLower.
Proof.
  unfold codecUnsupported, CodecMatches. rewrite existsb_exists.
  split; intros [u [Hin H]]; exists u; split; try assumption.
  - apply orb_true_iff in H. now rewrite <- !includes_spec.
  - apply orb_true_iff. now rewrite !includes_spec.
Qed.

End StringFacts.

(** ** One run of [testVideo] *)

(** Case analysis on the result of the [buildResult] in the goal. *)
Ltac case_buildResult :=
  match goal with
  | |- context [buildResult ?name ?ext ?t ?c ?f ?w ?h ?r ?d] =>
      let Hb := fresh "Hbuilt" in
      destruct (buildResult name ext t c f w h r d) eqn:Hb
  end.

Section TestVideo.

Variable rt : runtime.

Lemma testVideo_load_rejected filePath st r :
  loadOutcome rt (history st ++ [DateNow])%list filePath = Some r ->
  testVideo rt filePath st
  = (Returns false,
     {| history := (history st ++ [DateNow; Load filePath])%list;
        results := (results st
                    ++ [Failed (basename rt filePath) (errorMsg (Rejected r))])%list |}).
Proof.
  intros Hload. destruct st as [h rs]. simpl in Hload.
  unfold testVideo, tryCatch, bind, dateNow, playerLoad, push, ret, recordEvent.
  simpl. rewrite Hload. simpl. now rewrite <- app_assoc.
Qed.

Lemma getPropertyOrNull_run name st :
  getPropertyOrNull rt name st
  = (Returns (orNull (propertyOutcome rt (history st) name)),
     recordEvent (GetProperty name) st).
Proof.
  unfold getPropertyOrNull, tryCatch, getProperty, ret, orNull.
  now destruct (propertyOutcome rt (history st) name).
Qed.

Lemma testVideo_load_resolved filePath st :
  loadOutcome rt (history st ++ [DateNow])%list filePath = None ->
  let r := stored rt filePath (builtAfter rt (history st) filePath) in
  testVideo rt filePath st
  = (Returns (success r),
     {| history := (history st ++ probeEvents filePath)%list;
        results := (results st ++ [r])%list |}).
Proof.
  intros Hload. destruct st as [h rs]. cbn [history] in Hload.
  unfold builtAfter, readValue, probeEvents. cbn [firstn Nat.add history results].
  unfold testVideo, tryCatch at 1. unfold bind, dateNow, playerLoad, setTimeout.
  cbn [recordEvent history results]. rewrite Hload.
  repeat (rewrite getPropertyOrNull_run; cbn [recordEvent history results]).
  unfold recordEvent; cbn [history results].
  repeat (rewrite <- app_assoc; cbn [app]).
  case_buildResult;
  unfold throw, push, ret, recordEvent; cbn [history results stored success];
  repeat (rewrite <- app_assoc; cbn [app]); reflexivity.
Qed.

End TestVideo.

(** ** Dot insertion and lower-casing *)

Section Canonicalization.

Lemma replaceFirstDigit_noDigit s :
  hasDigit s = false -> replaceFirstDigit s = s.
Proof.
  induction s as [|c s IH]; simpl; [reflexivity|].
  intros H. apply orb_false_iff in H as [Hc Hs].
  rewrite Hc. now rewrite IH.
Qed.

Lemma length_replaceFirstDigit s :
  String.length (replaceFirstDigit s)
  = (String.length s + (if hasDigit s then 1 else 0))%nat.
Proof.
  induction s as [|c s IH]; simpl; [reflexivity|].
  destruct (isDigit c); simpl.
  - now rewrite Nat.add_1_r.
  - now rewrite IH.
Qed.

Lemma hasDigit_replaceFirstDigit s :
  hasDigit (replaceFirstDigit s) = hasDigit s.
Proof.
  induction s as [|c s IH]; simpl; [reflexivity|].
  destruct (isDigit c) eqn:Hc; simpl; rewrite Hc; simpl; [reflexivity | exact IH].
Qed.

Lemma toLowerCase_replaceFirstDigit s :
  toLowerCase (replaceFirstDigit s) = replaceFirstDigit (toLowerCase s).
Proof.
  induction s as [|c s IH]; simpl; [reflexivity|].
  rewrite isDigit_lowerUnit. destruct (isDigit c); simpl.
  - reflexivity.
  - now rewrite IH.
Qed.

Lemma canonicalizeCodec_twice_unfold raw :
  canonicalizeCodec (canonicalizeCodec raw)
  = replaceFirstDigit (canonicalizeCodec raw).
Proof.
  unfold canonicalizeCodec, normalized.
  now rewrite toLowerCase_replaceFirstDigit, toLowerCase_idem.
Qed.

Lemma hasDigit_canonicalizeCodec raw :
  hasDigit (canonicalizeCodec raw) = hasDigit raw.
Proof.
  unfold canonicalizeCodec, normalized.
  now rewrite hasDigit_replaceFirstDigit, hasDigit_toLowerCase.
Qed.

End Canonicalization.

(** ** The claims on classification *)

Lemma classify_matched rules formats codec ext :
  CodecMatches rules (toLowerCase codec) ->
  classify rules formats codec ext = (true, Some UnsupportedCodec).
Proof.
  intros H. apply codecUnsupported_spec in H.
  unfold classify. now rewrite H.
Qed.

(** C1: whenever the rule list holds the entry "h263", a codec string that
    reads "h263" or "h.263" once lower-cased (so in any letter case) is
    classified as needing conversion, for the reason "Unsupported codec":
    the entry matches in its plain and in its dot-inserted form. *)
Theorem h263_plain_and_dotted_match rules formats codec ext :
  In "h263" rules ->
  toLowerCase codec = "h263" \/ toLowerCase codec = "h.263" ->
  classify rules formats codec ext = (true, Some UnsupportedCodec).
Proof.
  intros Hin Hcodec. apply classify_matched.
  exists "h263". split; [assumption|].
  destruct Hcodec as [-> | ->].
  - left. apply includes_spec. reflexivity.
  - right. apply includes_spec. reflexivity.
Qed.

(** The script's own rule list, and the dotted upper-case spelling. *)
Lemma h263_plain_and_dotted_match_witness :
  In "h263" VIDVUR_UNSUPPORTED_CODECS
  /\ (toLowerCase "H.263" = "h263" \/ toLowerCase "H.263" = "h.263")
  /\ classify VIDVUR_UNSUPPORTED_CODECS VIDVUR_CONVERSION_FORMATS "H.263" ".mp4"
     = (true, Some UnsupportedCodec).
Proof.
  split; [simpl; auto|].
  split; [right; reflexivity|].
  apply (h263_plain_and_dotted_match
           VIDVUR_UNSUPPORTED_CODECS VIDVUR_CONVERSION_FORMATS "H.263" ".mp4").
  - simpl; auto.
  - right; reflexivity.
Defined.

Lemma buildResult_fields name ext elapsed
    codecValue formatValue width height fpsValue durationValue r :
  buildResult name ext elapsed
              codecValue formatValue width height fpsValue durationValue
  = inr r ->
  codecValue = VString (codec r)
  /\ filename r = name
  /\ loadTime r = elapsed
  /\ format r = formatValue
  /\ resolution r = toStr width ++ "x" ++ toStr height
  /\ fixedOrNA "fps" fpsValue = inr (fps r)
  /\ fixedOrNA "duration" durationValue = inr (duration r)
  /\ (wouldConvert r, reason r)
     = classify VIDVUR_UNSUPPORTED_CODECS VIDVUR_CONVERSION_FORMATS
                (codec r) ext.
Proof.
  unfold buildResult.
  destruct (truthy codecValue); [|discriminate]. cbn [negb].
  destruct codecValue; try discriminate.
  destruct (fixedOrNA "fps" fpsValue); [discriminate|].
  destruct (fixedOrNA "duration" durationValue); [discriminate|].
  intros H. injection H as <-.
  cbn [codec filename loadTime format resolution fps duration wouldConvert reason].
  repeat split.
Qed.


(** C2: the verdict says "would convert" exactly when the lower-cased codec
    matches a rule entry or the extension is in the container list; the
    reason is "Unsupported codec" whenever the codec matched (also when the
    container matched too), "Container format requires conversion" when only
    the container matched, and null otherwise.  [testVideo] stores that
    verdict, taken on the two lists of the script and on the lower-cased
    [path.extname] of the file, in every result of a succeeded probe. *)
Theorem classify_verdict rules formats codecName ext :
  (fst (classify rules formats codecName ext) = true
   <-> CodecMatches rules (toLowerCase codecName) \/ In ext formats)
  /\ (CodecMatches rules (toLowerCase codecName) ->
      snd (classify rules formats codecName ext) = Some UnsupportedCodec)
  /\ (~ CodecMatches rules (toLowerCase codecName) -> In ext formats ->
      snd (classify rules formats codecName ext) = Some UnsupportedContainer)
  /\ (~ CodecMatches rules (toLowerCase codecName) -> ~ In ext formats ->
      snd (classify rules formats codecName ext) = None)
  /\ (forall rt h filePath r,
        builtAfter rt h filePath = inr r ->
        (wouldConvert r, reason r)
        = classify VIDVUR_UNSUPPORTED_CODECS VIDVUR_CONVERSION_FORMATS
                   (codec r) (toLowerCase (extname rt filePath))).
Proof.
  assert (Hprobe : forall rt h filePath r,
             builtAfter rt h filePath = inr r ->
             (wouldConvert r, reason r)
             = classify VIDVUR_UNSUPPORTED_CODECS VIDVUR_CONVERSION_FORMATS
                        (codec r) (toLowerCase (extname rt filePath))).
  { intros rt h filePath r H. now apply buildResult_fields in H. }
  unfold classify.
  rewrite <- codecUnsupported_spec, <- arrayIncludes_spec.
  destruct (codecUnsupported rules (toLowerCase codecName));
    destruct (arrayIncludes formats ext); cbn [fst snd orb];
    repeat split; try tauto; try congruence; try exact Hprobe;
    intros; exfalso; auto.
Qed.

(** C10: a codec string whose lower-cased form holds a rule entry, or the
    dot-inserted form of one, anywhere inside it is classified as needing
    conversion for the reason "Unsupported codec", also when the entry is
    only a part of a longer codec name. *)
Theorem codec_match_is_containment
    rules formats codec ext unsupported pre post :
  In unsupported rules ->
  toLowerCase codec = pre ++ unsupported ++ post
  \/ toLowerCase codec = pre ++ normalized unsupported ++ post ->
  classify rules formats codec ext = (true, Some UnsupportedCodec).
Proof.
  intros Hin Hsub. apply classify_matched.
  exists unsupported. split; [assumption|].
  destruct Hsub as [H | H]; [left | right]; now exists pre, post.
Qed.

(** The entry wmv3 inside the longer codec name wmv3image. *)
Lemma codec_match_is_containment_witness :
  In "wmv3" VIDVUR_UNSUPPORTED_CODECS
  /\ (toLowerCase "WMV3Image" = "" ++ "wmv3" ++ "image"
      \/ toLowerCase "WMV3Image" = "" ++ normalized "wmv3" ++ "image")
  /\ classify VIDVUR_UNSUPPORTED_CODECS VIDVUR_CONVERSION_FORMATS
              "WMV3Image" ".mp4"
     = (true, Some UnsupportedCodec).
Proof.
  split; [simpl; tauto|].
  split; [left; reflexivity|].
  apply (codec_match_is_containment
           VIDVUR_UNSUPPORTED_CODECS VIDVUR_CONVERSION_FORMATS
           "WMV3Image" ".mp4" "wmv3" "" "image").
  - simpl; tauto.
  - left; reflexivity.
Defined.

(** The three classification scenarios of the spec. *)
Example classify_h263_in_mp4 :
  classify VIDVUR_UNSUPPORTED_CODECS VIDVUR_CONVERSION_FORMATS "h263" ".mp4"
  = (true, Some "Unsupported codec").
Proof. reflexivity. Qed.

Example classify_h264_in_mov :
  classify VIDVUR_UNSUPPORTED_CODECS VIDVUR_CONVERSION_FORMATS "h264" ".mov"
  = (true, Some "Container format requires conversion").
Proof. reflexivity. Qed.

Example classify_h264_in_mp4 :
  classify VIDVUR_UNSUPPORTED_CODECS VIDVUR_CONVERSION_FORMATS "h264" ".mp4"
  = (false, None).
Proof. reflexivity. Qed.

(** An unsupported codec inside an unsupported container: the codec is the
    reason. *)
Example classify_wmv3_in_wmv :
  classify VIDVUR_UNSUPPORTED_CODECS VIDVUR_CONVERSION_FORMATS "WMV3" ".wmv"
  = (true, Some "Unsupported codec").
Proof. reflexivity. Qed.

(** C3, as the spec has it, fails: a second canonicalization of "h263"
    inserts a second dot. *)
Lemma canonicalizeCodec_not_idempotent :
  canonicalizeCodec "h263" = "h.263"
  /\ canonicalizeCodec (canonicalizeCodec "h263") = "h..263"
  /\ canonicalizeCodec (canonicalizeCodec "h263") <> canonicalizeCodec "h263".
Proof. repeat split. discriminate. Qed.

(** C3, amended: lower-casing is idempotent; the canonicalization (lower-case,
    then a dot before the first digit) is idempotent exactly on the strings
    that hold no digit, and on every other string a second application adds
    one more dot. *)
Theorem canonicalizeCodec_idempotent_iff_no_digit raw :
  toLowerCase (toLowerCase raw) = toLowerCase raw
  /\ (canonicalizeCodec (canonicalizeCodec raw) = canonicalizeCodec raw
      <-> hasDigit raw = false)
  /\ String.length (canonicalizeCodec (canonicalizeCodec raw))
     = (String.length (canonicalizeCodec raw)
        + (if hasDigit raw then 1 else 0))%nat.
Proof.
  split; [apply toLowerCase_idem|].
  assert (Hlen : String.length (canonicalizeCodec (canonicalizeCodec raw))
                 = (String.length (canonicalizeCodec raw)
                    + (if hasDigit raw then 1 else 0))%nat).
  { rewrite canonicalizeCodec_twice_unfold, length_replaceFirstDigit.
    now rewrite hasDigit_canonicalizeCodec. }
  split; [|exact Hlen].
  split.
  - intros Heq. rewrite Heq in Hlen.
    destruct (hasDigit raw); [lia | reflexivity].
  - intros Hno. rewrite canonicalizeCodec_twice_unfold.
    apply replaceFirstDigit_noDigit.
    now rewrite hasDigit_canonicalizeCodec.
Qed.

(** ** The report *)

Section ReportFacts.

Lemma successfulOf_app l1 l2 :
  successfulOf (l1 ++ l2)%list = (successfulOf l1 ++ successfulOf l2)%list.
Proof. apply flat_map_app. Qed.

Lemma successfulOf_failed_between l1 r l2 :
  success r = false ->
  successfulOf (l1 ++ r :: l2)%list = successfulOf (l1 ++ l2)%list.
Proof.
  intros Hr. rewrite !successfulOf_app.
  destruct r as [p | name err]; [discriminate | reflexivity].
Qed.

Lemma successfulOf_nil_iff results :
  successfulOf results = [] <-> forall r, In r results -> success r = false.
Proof.
  induction results as [|r rs IH]; simpl.
  - split; [intros _ r [] | reflexivity].
  - destruct r as [p | name err]; simpl.
    + split; [discriminate|]. intros H.
      specialize (H (Succeeded p) (or_introl eq_refl)). discriminate.
    + rewrite IH. split.
      * intros H r [<- | Hin]; [reflexivity | now apply H].
      * intros H r Hin. apply H. now right.
Qed.

Lemma fold_left_loadTime successful acc :
  fold_left (fun sum r => (sum + loadTime r)%Z) successful acc
  = (acc + totalLoadTime successful)%Z.
Proof.
  revert acc. induction successful as [|r rest IH]; intros acc; simpl.
  - lia.
  - rewrite IH. lia.
Qed.

Lemma sumLoadTime_total successful :
  sumLoadTime successful = totalLoadTime successful.
Proof. unfold sumLoadTime. now rewrite fold_left_loadTime. Qed.

Lemma avgLoadTime_unfold results :
  Report.avgLoadTime (printReport results)
  = match successfulOf results with
    | [] => None
    | _ :: _ =>
        Some (inject_Z (sumLoadTime (successfulOf results))
              / inject_Z (Z.of_nat (length (successfulOf results))))%Q
    end.
Proof.
  unfold printReport. cbn [Report.avgLoadTime].
  now destruct (successfulOf results).
Qed.

End ReportFacts.

(** The [codecs] object on keys that [{}] inherits, and on array indices. *)
Example codecs_of_odd_names :
  entries (fold_left countCodec
             ["h264"; "10"; "constructor"; "9"; "h264"; "constructor";
              "__proto__"; "constructor"] [])
  = [("9", Count 1); ("10", Count 1); ("h264", Count 2);
     ("constructor", Count 2)].
Proof. reflexivity. Qed.

(** C8, as the spec has it, fails: on an empty [results] the report has no
    average at all, rather than the average 0. *)
Lemma printReport_empty_has_no_average :
  Report.avgLoadTime (printReport []) = None
  /\ ~ (exists avg, Report.avgLoadTime (printReport []) = Some avg
                    /\ (avg == 0)%Q).
Proof.
  split; [reflexivity|]. intros [avg [H _]]. discriminate H.
Qed.

(** C8, amended: on an empty [results] every list of the report is empty and
    the total is 0, and no average is computed; in general the average is
    computed exactly when some entry succeeded (lines 196-203 are guarded by
    [successful.length > 0], so that the division never has a zero divisor),
    and it is then the sum of [loadTime] over the succeeded entries divided
    by their number. *)
Theorem printReport_average_guarded results :
  printReport []
  = {| Report.total := 0;
       Report.successful := [];
       Report.failed := [];
       Report.wouldConvert := [];
       Report.noConversionNeeded := [];
       Report.avgLoadTime := None;
       Report.codecs := [] |}
  /\ (Report.avgLoadTime (printReport results) = None
      <-> forall r, In r results -> success r = false)
  /\ (forall avg,
        Report.avgLoadTime (printReport results) = Some avg ->
        (0 < length (successfulOf results))%nat
        /\ (avg * inject_Z (Z.of_nat (length (successfulOf results)))
            == inject_Z (totalLoadTime (successfulOf results)))%Q).
Proof.
  split; [reflexivity|]. rewrite avgLoadTime_unfold. split.
  - rewrite <- successfulOf_nil_iff.
    destruct (successfulOf results); split; intros H; try reflexivity;
      discriminate.
  - intros avg Havg. rewrite <- sumLoadTime_total.
    destruct (successfulOf results) as [|p ps] eqn:Hs; [discriminate|].
    injection Havg as <-. split; [simpl; lia|].
    rewrite Qmult_comm. apply Qmult_div_r.
    intros H. unfold Qeq in H. simpl in H. lia.
Qed.

(** C9: an entry of [results] with [success] false takes no part in the
    per-codec counts nor in the average load time (the report has the same
    codecs, the same average and the same succeeded entries as without it),
    but it is counted in the total and is one of the failed entries. *)
Theorem failed_entry_counted_but_not_measured before r after :
  success r = false ->
  let withIt := printReport (before ++ r :: after)%list in
  let without := printReport (before ++ after)%list in
  Report.codecs withIt = Report.codecs without
  /\ Report.avgLoadTime withIt = Report.avgLoadTime without
  /\ Report.successful withIt = Report.successful without
  /\ Report.total withIt = S (Report.total without)
  /\ length (Report.failed withIt) = S (length (Report.failed without))
  /\ In r (Report.failed withIt).
Proof.
  intros Hr. unfold printReport. cbn zeta.
  cbn [Report.codecs Report.avgLoadTime Report.successful Report.total
       Report.failed].
  rewrite (successfulOf_failed_between before r after Hr).
  repeat split.
  - rewrite !length_app. simpl. lia.
  - rewrite !filter_app, !length_app. simpl. rewrite Hr. simpl. lia.
  - apply filter_In. split; [apply in_elt | now rewrite Hr].
Qed.

(** The failed entry of the sample batch, between two succeeded ones. *)
Lemma failed_entry_counted_but_not_measured_witness :
  success (Failed "broken.avi" "Could not detect video codec") = false
  /\ Report.codecs
       (printReport [sampleEntry "a.mp4" "h264" 120;
                     Failed "broken.avi" "Could not detect video codec";
                     sampleEntry "b.mp4" "h264" 180])
     = [("h264", Count 2, false)]
  /\ Report.avgLoadTime
       (printReport [sampleEntry "a.mp4" "h264" 120;
                     Failed "broken.avi" "Could not detect video codec";
                     sampleEntry "b.mp4" "h264" 180])
     = Some (300 # 2)%Q
  /\ Report.total
       (printReport [sampleEntry "a.mp4" "h264" 120;
                     Failed "broken.avi" "Could not detect video codec";
                     sampleEntry "b.mp4" "h264" 180])
     = 3%nat.
Proof.
  split; [reflexivity|].
  pose proof (failed_entry_counted_but_not_measured
                [sampleEntry "a.mp4" "h264" 120]
                (Failed "broken.avi" "Could not detect video codec")
                [sampleEntry "b.mp4" "h264" 180]
                eq_refl) as H.
  cbn zeta in H. destruct H as (Hcodecs & Havg & _ & Htotal & _).
  split; [exact (eq_trans Hcodecs eq_refl)|].
  split; [exact (eq_trans Havg eq_refl)|].
  exact (eq_trans Htotal eq_refl).
Defined.

(** ** The probe and the batch *)

Section ProbeFacts.

Variable rt : runtime.





Lemma testVideo_pushed_succeeded filePath st r :
  loadOutcome rt (history st ++ [DateNow])%list filePath = None ->
  results (snd (testVideo rt filePath st)) = (results st ++ [Succeeded r])%list ->
  builtAfter rt (history st) filePath = inr r.
Proof.
  intros Hload.
  rewrite (testVideo_load_resolved rt filePath st Hload). cbn [snd results].
  intros Hres. apply app_inv_head in Hres. injection Hres as Hres.
  destruct (builtAfter rt (history st) filePath) as [e | p]; [discriminate|].
  simpl in Hres. now injection Hres as ->.
Qed.



End ProbeFacts.

(** A batch of two files on the sample player: the first cannot be loaded,
    the second is probed, and both leave their result. *)
Example sample_batch :
  testEach sampleRuntime ["videos/missing.avi"; "videos/old.MOV"] initialState
  = (Returns tt,
     {| history :=
          [ DateNow; Load "videos/missing.avi";
            DateNow; Load "videos/old.MOV"; DateNow; SetTimeout 200;
            GetProperty "video-codec"; GetProperty "file-format";
            GetProperty "video-params/w"; GetProperty "video-params/h";
            GetProperty "container-fps"; GetProperty "duration" ];
        results :=
          [ Failed "missing.avi" "Unable to load file";
            Succeeded {| filename := "old.MOV";
                         codec := "h264";
                         format := VString "mov,mp4,m4a,3gp,3g2,mj2";
                         resolution := "640x480";
                         fps := "N/A";
                         duration := "12.50";
                         loadTime := 150;
                         wouldConvert := true;
                         reason := Some "Container format requires conversion" |} ] |}).
Proof. reflexivity. Qed.






(** C5, as the spec has it, fails: on the sample run the read of
    [container-fps] is rejected and [video-params/fps] would have answered
    25, yet the probe never asks for [video-params/fps] and stores the frame
    rate as unknown. *)
Lemma no_fallback_to_video_params_fps :
  propertyOutcome sampleRuntime (firstn 8 (probeEvents "videos/clip.mp4"))
                  "container-fps"
  = inl unavailable
  /\ propertyOutcome sampleRuntime (firstn 9 (probeEvents "videos/clip.mp4"))
                     "video-params/fps"
     = inr (VNumber (S754_finite false 7036874417766400 (-48)) "25")
  /\ ~ In (GetProperty "video-params/fps")
          (history (snd (testVideo sampleRuntime "videos/clip.mp4" initialState)))
  /\ map (fun r => match r with
                   | Succeeded p => fps p
                   | Failed _ _ => ""
                   end)
         (results (snd (testVideo sampleRuntime "videos/clip.mp4" initialState)))
     = ["N/A"].
Proof.
  split; [reflexivity|]. split; [reflexivity|]. split; [|reflexivity].
  vm_compute. intros H.
  repeat (destruct H as [H | H]; [discriminate H|]). exact H.
Qed.

(** C5, amended: the one frame-rate property that a probe asks for is
    [container-fps]; it never asks for [video-params/fps], and when the read
    of [container-fps] is rejected the frame rate of a stored result is
    ['N/A'] at once. *)
Theorem frame_rate_read_from_container_fps_only rt filePath st :
  (exists evs,
      history (snd (testVideo rt filePath st)) = (history st ++ evs)%list
      /\ ~ In (GetProperty "video-params/fps") evs
      /\ (loadOutcome rt (history st ++ [DateNow])%list filePath = None ->
          In (GetProperty "container-fps") evs))
  /\ (forall rej r,
        loadOutcome rt (history st ++ [DateNow])%list filePath = None ->
        propertyOutcome rt (history st ++ firstn 8 (probeEvents filePath))%list
                        "container-fps"
        = inl rej ->
        results (snd (testVideo rt filePath st))
        = (results st ++ [Succeeded r])%list ->
        fps r = "N/A").
Proof.
  split.
  - destruct (loadOutcome rt (history st ++ [DateNow])%list filePath)
      as [rej |] eqn:Hload.
    + exists [DateNow; Load filePath].
      rewrite (testVideo_load_rejected rt filePath st rej Hload).
      split; [reflexivity|]. split; [|discriminate].
      simpl. intros [H | [H | []]]; discriminate H.
    + exists (probeEvents filePath).
      rewrite (testVideo_load_resolved rt filePath st Hload).
      split; [reflexivity|]. split.
      * unfold probeEvents. simpl. intros H.
        repeat (destruct H as [H | H]; [discriminate H|]). exact H.
      * intros _. unfold probeEvents. simpl. tauto.
  - intros rej r Hload Hfps Hres.
    apply (testVideo_pushed_succeeded rt filePath st r Hload) in Hres.
    apply buildResult_fields in Hres.
    destruct Hres as (_ & _ & _ & _ & _ & Hf & _).
    unfold readValue in Hf. cbn [Nat.add] in Hf. rewrite Hfps in Hf.
    simpl in Hf. now injection Hf as <-.
Qed.

(** The sample run, in which [container-fps] is unavailable. *)
Lemma frame_rate_read_from_container_fps_only_witness :
  loadOutcome sampleRuntime (history initialState ++ [DateNow])%list
              "videos/clip.mp4" = None
  /\ propertyOutcome sampleRuntime
       (history initialState ++ firstn 8 (probeEvents "videos/clip.mp4"))%list
       "container-fps" = inl unavailable
  /\ fps {| filename := "clip.mp4";
            codec := "h264";
            format := VString "mov,mp4,m4a,3gp,3g2,mj2";
            resolution := "640x480";
            fps := "N/A";
            duration := "12.50";
            loadTime := 150;
            wouldConvert := false;
            reason := None |} = "N/A".
Proof.
  split; [reflexivity|]. split; [reflexivity|].
  exact (proj2 (frame_rate_read_from_container_fps_only
                  sampleRuntime "videos/clip.mp4" initialState)
           unavailable _ eq_refl eq_refl eq_refl).
Defined.

(** C6, as the spec has it, fails: on the sample run the second [Date.now()]
    comes straight after the load, before the settle wait and before every
    property read, and the stored load time is the 150 ms of the load, while
    362 ms pass from the recorded start to the end of the reads. *)
Lemma loadTime_taken_before_settle_and_reads :
  history (snd (testVideo sampleRuntime "videos/clip.mp4" initialState))
  = [ DateNow; Load "videos/clip.mp4"; DateNow; SetTimeout 200;
      GetProperty "video-codec"; GetProperty "file-format";
      GetProperty "video-params/w"; GetProperty "video-params/h";
      GetProperty "container-fps"; GetProperty "duration" ]
  /\ map (fun r => match r with
                   | Succeeded p => loadTime p
                   | Failed _ _ => 0%Z
                   end)
         (results (snd (testVideo sampleRuntime "videos/clip.mp4" initialState)))
     = [150%Z]
  /\ (now sampleRuntime
          (history (snd (testVideo sampleRuntime "videos/clip.mp4" initialState)))
      - now sampleRuntime (history initialState))%Z
     = 362%Z.
Proof. repeat split. Qed.

(** C6, amended: when the load resolves, the requests of a probe run in the
    order start time, load, end time, settle wait, the six property reads;
    the stored load time is the clock straight after the load minus the
    clock at the start, so it covers the load alone and neither the settle
    wait nor the reads. *)
Theorem loadTime_covers_load_only rt filePath st :
  loadOutcome rt (history st ++ [DateNow])%list filePath = None ->
  history (snd (testVideo rt filePath st))
  = (history st
     ++ [ DateNow; Load filePath; DateNow; SetTimeout 200;
          GetProperty "video-codec"; GetProperty "file-format";
          GetProperty "video-params/w"; GetProperty "video-params/h";
          GetProperty "container-fps"; GetProperty "duration" ])%list
  /\ (forall r,
        results (snd (testVideo rt filePath st))
        = (results st ++ [Succeeded r])%list ->
        loadTime r
        = (now rt (history st ++ [DateNow; Load filePath])%list
           - now rt (history st))%Z).
Proof.
  intros Hload.
  rewrite (testVideo_load_resolved rt filePath st Hload). cbn [snd history results].
  split; [reflexivity|].
  intros r Hres.
  assert (Hbuilt : builtAfter rt (history st) filePath = inr r).
  { apply testVideo_pushed_succeeded; [exact Hload|].
    now rewrite (testVideo_load_resolved rt filePath st Hload). }
  apply buildResult_fields in Hbuilt. tauto.
Qed.

(** The order of the requests on the sample run. *)
Lemma loadTime_covers_load_only_witness :
  loadOutcome sampleRuntime (history initialState ++ [DateNow])%list
              "videos/clip.mp4" = None
  /\ history (snd (testVideo sampleRuntime "videos/clip.mp4" initialState))
     = (history initialState
        ++ [ DateNow; Load "videos/clip.mp4"; DateNow; SetTimeout 200;
             GetProperty "video-codec"; GetProperty "file-format";
             GetProperty "video-params/w"; GetProperty "video-params/h";
             GetProperty "container-fps"; GetProperty "duration" ])%list.
Proof.
  split; [reflexivity|].
  exact (proj1 (loadTime_covers_load_only
                  sampleRuntime "videos/clip.mp4" initialState eq_refl)).
Defined.

(** C7: when the load resolves, all six property reads are made, in their
    order, whatever each of them answers; each of the six values is what its
    own read resolved with, or null when that read was rejected, and the
    stored result is built from these six values. *)
Theorem property_reads_independent rt filePath st :
  loadOutcome rt (history st ++ [DateNow])%list filePath = None ->
  history (snd (testVideo rt filePath st))
  = (history st
     ++ [ DateNow; Load filePath; DateNow; SetTimeout 200;
          GetProperty "video-codec"; GetProperty "file-format";
          GetProperty "video-params/w"; GetProperty "video-params/h";
          GetProperty "container-fps"; GetProperty "duration" ])%list
  /\ results (snd (testVideo rt filePath st))
     = (results st
        ++ [stored rt filePath
              (buildResult (basename rt filePath)
                 (toLowerCase (extname rt filePath))
                 (now rt (history st ++ [DateNow; Load filePath])%list
                  - now rt (history st))%Z
                 (readValue rt (history st) filePath 0 "video-codec")
                 (readValue rt (history st) filePath 1 "file-format")
                 (readValue rt (history st) filePath 2 "video-params/w")
                 (readValue rt (history st) filePath 3 "video-params/h")
                 (readValue rt (history st) filePath 4 "container-fps")
                 (readValue rt (history st) filePath 5 "duration"))])%list
  /\ (forall i name,
        match propertyOutcome rt
                (history st ++ firstn (4 + i) (probeEvents filePath))%list name
        with
        | inr v => readValue rt (history st) filePath i name = v
        | inl _ => readValue rt (history st) filePath i name = VNull
        end).
Proof.
  intros Hload.
  rewrite (testVideo_load_resolved rt filePath st Hload). cbn [snd history results].
  split; [reflexivity|]. split; [reflexivity|].
  intros i name. unfold readValue.
  now destruct (propertyOutcome rt _ name).
Qed.

(** The sample run: the rejected read of [container-fps] leaves the other
    five values as they were read. *)
Lemma property_reads_independent_witness :
  loadOutcome sampleRuntime (history initialState ++ [DateNow])%list
              "videos/clip.mp4" = None
  /\ results (snd (testVideo sampleRuntime "videos/clip.mp4" initialState))
     = [Succeeded {| filename := "clip.mp4";
                     codec := "h264";
                     format := VString "mov,mp4,m4a,3gp,3g2,mj2";
                     resolution := "640x480";
                     fps := "N/A";
                     duration := "12.50";
                     loadTime := 150;
                     wouldConvert := false;
                     reason := None |}].
Proof.
  split; [reflexivity|].
  exact (eq_trans
           (proj1 (proj2 (property_reads_independent
                            sampleRuntime "videos/clip.mp4" initialState eq_refl)))
           eq_refl).
Defined.

(** ** The directory scan *)

Section ScanFacts.

Variable h : host.

Lemma scanEntry_directory dir name content files :
  scanEntry h dir (DirectoryEntry name content) files
  = scanDir h (join h dir name) content files.
Proof.
  destruct content as [entries |]; [|reflexivity].
  cbn [scanEntry scanDir]. revert files.
  induction entries as [|e l IH]; intros files; [reflexivity|].
  cbn [scanEntries].
  destruct (scanEntry h (join h dir name) e files) as [files' []];
    [apply IH | reflexivity].
Qed.

Lemma scanEntries_readable_from dir l :
  Forall (fun e => forall d files,
              readable e = true ->
              scanEntry h d e files = ((files ++ videoPaths h d e)%list, true)) l ->
  forall files,
    forallb readable l = true ->
    scanEntries h dir l files
    = ((files ++ flat_map (videoPaths h dir) l)%list, true).
Proof.
  induction 1 as [|e l He Hl IH]; intros files Hr; cbn [scanEntries flat_map].
  - now rewrite app_nil_r.
  - cbn [forallb] in Hr. apply andb_true_iff in Hr as [Hre Hrl].
    rewrite (He dir files Hre), (IH _ Hrl). now rewrite <- app_assoc.
Qed.

Lemma scanEntry_readable entry :
  forall dir files,
    readable entry = true ->
    scanEntry h dir entry files
    = ((files ++ videoPaths h dir entry)%list, true).
Proof.
  induction entry as [name | name | name | name entries IH]
    using dirent_nested_ind; intros dir files Hr.
  - cbn [scanEntry videoPaths]. destruct (hasVideoExtension h name);
      [reflexivity | now rewrite app_nil_r].
  - cbn [scanEntry videoPaths]. now rewrite app_nil_r.
  - discriminate Hr.
  - rewrite scanEntry_directory. cbn [scanDir videoPaths].
    now apply scanEntries_readable_from.
Qed.

Lemma scanEntries_readable dir l files :
  forallb readable l = true ->
  scanEntries h dir l files
  = ((files ++ flat_map (videoPaths h dir) l)%list, true).
Proof.
  intros Hr. apply scanEntries_readable_from; [|exact Hr].
  apply Forall_forall. intros e _ d fs. apply scanEntry_readable.
Qed.

Lemma scanEntries_unreadable_from dir l :
  Forall (fun e => forall d files,
              readable e = false -> snd (scanEntry h d e files) = false) l ->
  forall files,
    forallb readable l = false ->
    snd (scanEntries h dir l files) = false.
Proof.
  induction 1 as [|e l He Hl IH]; intros files Hr; [discriminate|].
  cbn [scanEntries]. cbn [forallb] in Hr.
  destruct (readable e) eqn:Hre.
  - rewrite (scanEntry_readable e dir files Hre). now apply IH.
  - specialize (He dir files eq_refl).
    destruct (scanEntry h dir e files) as [files' []]; [discriminate He | reflexivity].
Qed.

Lemma scanEntry_unreadable entry :
  forall dir files,
    readable entry = false -> snd (scanEntry h dir entry files) = false.
Proof.
  induction entry as [name | name | name | name entries IH]
    using dirent_nested_ind; intros dir files Hr; try discriminate Hr.
  - reflexivity.
  - rewrite scanEntry_directory. cbn [scanDir].
    now apply scanEntries_unreadable_from.
Qed.

Lemma scanDir_readable dir content files :
  readableContent content = true ->
  scanDir h dir content files = ((files ++ videoFiles h dir content)%list, true).
Proof.
  destruct content as [entries |]; [|discriminate].
  apply scanEntries_readable.
Qed.

Lemma scanDir_unreadable dir content files :
  readableContent content = false ->
  snd (scanDir h dir content files) = false.
Proof.
  destruct content as [entries |]; [|reflexivity].
  intros Hr. apply scanEntries_unreadable_from; [|exact Hr].
  apply Forall_forall. intros e _ d fs. apply scanEntry_unreadable.
Qed.

Lemma videoPaths_FileAt_from dir l :
  Forall (fun e => forall d p,
              In p (videoPaths h d e) ->
              exists at_ name,
                FileAt h d [e] at_ name
                /\ hasVideoExtension h name = true
                /\ p = join h at_ name) l ->
  forall p,
    In p (flat_map (videoPaths h dir) l) ->
    exists at_ name,
      FileAt h dir l at_ name
      /\ hasVideoExtension h name = true
      /\ p = join h at_ name.
Proof.
  intros Hall p Hin. apply in_flat_map in Hin as [e [He Hp]].
  rewrite Forall_forall in Hall.
  destruct (Hall e He dir p Hp) as [at_ [name [Hat [Hv ->]]]].
  exists at_, name. split; [|now split].
  inversion Hat as [d es n Hn | d es sub below d' n Hsub Hbelow]; subst.
  - destruct Hn as [Heq | []]. subst e. now apply FileHere.
  - destruct Hsub as [Heq | []]. subst e. now apply FileBelow with sub below.
Qed.

Lemma videoPaths_FileAt entry :
  forall dir p,
    In p (videoPaths h dir entry) ->
    exists at_ name,
      FileAt h dir [entry] at_ name
      /\ hasVideoExtension h name = true
      /\ p = join h at_ name.
Proof.
  induction entry as [name | name | name | name entries IH]
    using dirent_nested_ind; intros dir p Hin; cbn [videoPaths] in Hin;
    try contradiction.
  - destruct (hasVideoExtension h name) eqn:Hv; [|contradiction].
    destruct Hin as [<- | []]. exists dir, name.
    split; [apply FileHere; now left | now split].
  - destruct (videoPaths_FileAt_from _ _ IH p Hin)
      as [at_ [n [Hat [Hv ->]]]].
    exists at_, n. split; [|now split].
    apply FileBelow with name entries; [now left | exact Hat].
Qed.

Lemma FileAt_videoPaths dir entries at_ name :
  FileAt h dir entries at_ name ->
  hasVideoExtension h name = true ->
  In (join h at_ name) (flat_map (videoPaths h dir) entries).
Proof.
  intros Hat Hv. induction Hat as [dir entries name Hin
                                  | dir entries sub below d name Hin Hat IH].
  - apply in_flat_map. exists (FileEntry name). split; [exact Hin|].
    cbn [videoPaths]. rewrite Hv. now left.
  - apply in_flat_map. exists (DirectoryEntry sub (Some below)).
    split; [exact Hin | exact (IH Hv)].
Qed.

Lemma conversionFormat_is_videoExtension ext :
  arrayIncludes VIDVUR_CONVERSION_FORMATS ext = true ->
  arrayIncludes videoExtensions ext = true.
Proof.
  intros H. apply arrayIncludes_spec in H. apply arrayIncludes_spec.
  simpl in H. simpl. intuition.
Qed.

End ScanFacts.

(** X1: [scanDir] ends without a throw exactly when every directory at and
    below the one it is called on can be read; one unreadable directory
    anywhere in the tree makes the whole scan throw. *)
Theorem scanDir_completes_iff_readable h dir content files :
  snd (scanDir h dir content files) = readableContent content.
Proof.
  destruct (readableContent content) eqn:Hr.
  - now rewrite scanDir_readable.
  - now apply scanDir_unreadable.
Qed.

(** X2: on a tree that can be read, [scanDir] keeps the array [files] as it
    was and appends the video files of the tree in depth-first order: a
    directory contributes its own video files, sub-directories included, at
    the place where it stands among the entries of its parent. *)
Theorem scanDir_appends_depth_first h dir entries1 sub below entries2 files :
  forallb readable (entries1 ++ DirectoryEntry sub (Some below) :: entries2) = true ->
  fst (scanDir h dir
         (Some (entries1 ++ DirectoryEntry sub (Some below) :: entries2)%list)
         files)
  = (files
     ++ fst (scanDir h dir (Some entries1) [])
     ++ fst (scanDir h (join h dir sub) (Some below) [])
     ++ fst (scanDir h dir (Some entries2) []))%list.
Proof.
  intros Hr. pose proof Hr as Hr'.
  rewrite forallb_app in Hr'. apply andb_true_iff in Hr' as [H1 H2].
  cbn [forallb] in H2. apply andb_true_iff in H2 as [Hb H2].
  cbn [scanDir]. rewrite !scanEntries_readable by assumption.
  cbn [fst app]. rewrite flat_map_app. cbn [flat_map videoPaths].
  reflexivity.
Qed.

Lemma scanDir_appends_depth_first_witness :
  forallb readable
    ([FileEntry "clip.mp4"; FileEntry "notes.txt"]
     ++ DirectoryEntry "old" (Some [FileEntry "FILM.MOV"])
     :: [FileEntry "last.webm"]) = true
  /\ fst (scanDir sampleHost "videos"
            (Some ([FileEntry "clip.mp4"; FileEntry "notes.txt"]
                   ++ DirectoryEntry "old" (Some [FileEntry "FILM.MOV"])
                   :: [FileEntry "last.webm"])%list)
            ["first.mkv"])
     = ["first.mkv"; "videos/clip.mp4"; "videos/old/FILM.MOV"; "videos/last.webm"].
Proof.
  split; [reflexivity|].
  exact (eq_trans
           (scanDir_appends_depth_first sampleHost "videos"
              [FileEntry "clip.mp4"; FileEntry "notes.txt"]
              "old" [FileEntry "FILM.MOV"] [FileEntry "last.webm"]
              ["first.mkv"] eq_refl)
           eq_refl).
Defined.

(** X3: on a tree that can be read, a path is collected by [scanDir]
    exactly when it is [path.join(d, name)] for a regular file [name] in a
    directory [d] of the tree whose lower-cased extension is in
    [videoExtensions]; entries that are neither files nor directories are
    never collected and never entered. *)
Theorem scanDir_collects_video_files h dir entries path :
  forallb readable entries = true ->
  (In path (fst (scanDir h dir (Some entries) []))
   <-> exists d name,
         FileAt h dir entries d name
         /\ In (toLowerCase (extname (player h) name)) videoExtensions
         /\ path = join h d name).
Proof.
  intros Hr. cbn [scanDir]. rewrite scanEntries_readable by exact Hr.
  cbn [fst app]. split.
  - intros Hin.
    assert (Hall : Forall (fun e => forall d p,
                      In p (videoPaths h d e) ->
                      exists at_ name,
                        FileAt h d [e] at_ name
                        /\ hasVideoExtension h name = true
                        /\ p = join h at_ name) entries).
    { apply Forall_forall. intros e _. apply videoPaths_FileAt. }
    destruct (videoPaths_FileAt_from h dir entries Hall path Hin)
      as [d [name [Hat [Hv Hp]]]].
    exists d, name. split; [exact Hat|]. split; [|exact Hp].
    now apply arrayIncludes_spec.
  - intros [d [name [Hat [Hv ->]]]].
    apply FileAt_videoPaths; [exact Hat|]. now apply arrayIncludes_spec.
Qed.

Lemma scanDir_collects_video_files_witness :
  forallb readable sampleTree = true
  /\ In "videos/old/FILM.MOV"
        (fst (scanDir sampleHost "videos" (Some sampleTree) [])).
Proof.
  split; [reflexivity|].
  apply (proj2 (scanDir_collects_video_files
                  sampleHost "videos" sampleTree "videos/old/FILM.MOV" eq_refl)).
  exists "videos/old", "FILM.MOV". split.
  - apply FileBelow with "old" [FileEntry "missing.avi"; FileEntry "FILM.MOV"].
    + simpl. tauto.
    + apply FileHere. simpl. tauto.
  - split; [simpl; tauto | reflexivity].
Defined.

(** X4: every regular file of a readable tree whose lower-cased extension is
    one of the container formats that VidVuR converts is collected by the
    scan, so that it reaches the classification. *)
Theorem scanDir_covers_conversion_formats h dir entries d name :
  forallb readable entries = true ->
  FileAt h dir entries d name ->
  In (toLowerCase (extname (player h) name)) VIDVUR_CONVERSION_FORMATS ->
  In (join h d name) (fst (scanDir h dir (Some entries) [])).
Proof.
  intros Hr Hat Hext. cbn [scanDir]. rewrite scanEntries_readable by exact Hr.
  cbn [fst app]. apply FileAt_videoPaths; [exact Hat|].
  apply conversionFormat_is_videoExtension. now apply arrayIncludes_spec.
Qed.

Lemma scanDir_covers_conversion_formats_witness :
  forallb readable sampleTree = true
  /\ FileAt sampleHost "videos" sampleTree "videos/old" "FILM.MOV"
  /\ In (toLowerCase (extname (player sampleHost) "FILM.MOV"))
        VIDVUR_CONVERSION_FORMATS
  /\ In "videos/old/FILM.MOV"
        (fst (scanDir sampleHost "videos" (Some sampleTree) [])).
Proof.
  assert (Hat : FileAt sampleHost "videos" sampleTree "videos/old" "FILM.MOV").
  { apply FileBelow with "old" [FileEntry "missing.avi"; FileEntry "FILM.MOV"].
    - simpl. tauto.
    - apply FileHere. simpl. tauto. }
  assert (Hext : In (toLowerCase (extname (player sampleHost) "FILM.MOV"))
                    VIDVUR_CONVERSION_FORMATS) by (simpl; tauto).
  split; [reflexivity|]. split; [exact Hat|]. split; [exact Hext|].
  exact (scanDir_covers_conversion_formats
           sampleHost "videos" sampleTree "videos/old" "FILM.MOV"
           eq_refl Hat Hext).
Defined.

(** ** [main] *)

Section MainFacts.

Variable h : host.

Lemma main_scanned content :
  readdirSync h (testDir h) = content ->
  existsSync h (testDir h) = true ->
  readableContent content = true ->
  main h
  = match videoFiles h (testDir h) content with
    | [] => stopped (Exit 0) []
    | file :: rest =>
        if negb (startResolves h)
        then {| ended := Exit 1;
                startAttempted := true;
                found := file :: rest;
                final := initialState;
                printed := None |}
        else
          match testEach (player h) (file :: rest) initialState with
          | (Throws _, st) =>
              {| ended := Exit 1;
                 startAttempted := true;
                 found := file :: rest;
                 final := st;
                 printed := None |}
          | (Returns _, st) =>
              {| ended := if quitResolves h then Finished else Exit 1;
                 startAttempted := true;
                 found := file :: rest;
                 final := st;
                 printed := Some (printReport (results st)) |}
          end
    end.
Proof.
  intros Hc He Hr. unfold main. rewrite He, Hc. cbn [negb].
  rewrite (scanDir_readable h _ _ [] Hr). cbn [app].
  now destruct (videoFiles h (testDir h) content).
Qed.

Lemma main_unreadable :
  existsSync h (testDir h) = true ->
  readableContent (readdirSync h (testDir h)) = false ->
  exists files, main h = stopped (Exit 1) files.
Proof.
  intros He Hr. unfold main. rewrite He. cbn [negb].
  pose proof (scanDir_unreadable h (testDir h) _ [] Hr) as Hs.
  destruct (scanDir h (testDir h) (readdirSync h (testDir h)) [])
    as [files ok]. cbn [snd] in Hs. subst ok. exists files.
  now destruct files.
Qed.

End MainFacts.

(** X5: [main] reaches the creation of the player exactly when the
    directory to test exists, every directory below it can be read and at
    least one video file was found.  Otherwise no file is loaded and no
    report is printed, and the process exits with status 0 when the tree was
    read and held no video file, and with status 1 when the directory is
    missing or some directory could not be read. *)
Theorem main_reaches_player_iff h :
  (startAttempted (main h) = true
   <-> existsSync h (testDir h) = true
       /\ readableContent (readdirSync h (testDir h)) = true
       /\ videoFiles h (testDir h) (readdirSync h (testDir h)) <> [])
  /\ (startAttempted (main h) = false ->
      final (main h) = initialState
      /\ printed (main h) = None
      /\ ended (main h)
         = if existsSync h (testDir h)
              && readableContent (readdirSync h (testDir h))
           then Exit 0 else Exit 1).
Proof.
  destruct (existsSync h (testDir h)) eqn:He.
  - destruct (readableContent (readdirSync h (testDir h))) eqn:Hr.
    + rewrite (main_scanned h _ eq_refl He Hr).
      destruct (videoFiles h (testDir h) (readdirSync h (testDir h)))
        as [|file rest].
      * split; [split; [discriminate | intros (_ & _ & H); now contradiction H]
               | intros _; repeat split].
      * assert (Hs : startAttempted
                       (if negb (startResolves h)
                        then {| ended := Exit 1;
                                startAttempted := true;
                                found := file :: rest;
                                final := initialState;
                                printed := None |}
                        else
                          match testEach (player h) (file :: rest) initialState with
                          | (Throws _, st) =>
                              {| ended := Exit 1;
                                 startAttempted := true;
                                 found := file :: rest;
                                 final := st;
                                 printed := None |}
                          | (Returns _, st) =>
                              {| ended := if quitResolves h then Finished else Exit 1;
                                 startAttempted := true;
                                 found := file :: rest;
                                 final := st;
                                 printed := Some (printReport (results st)) |}
                          end) = true).
        { destruct (negb (startResolves h)); [reflexivity|].
          now destruct (testEach (player h) (file :: rest) initialState) as [[] ?]. }
        rewrite Hs. split; [|discriminate].
        split; [intros _; repeat split; discriminate | reflexivity].
    + destruct (main_unreadable h He Hr) as [files ->]. cbn.
      split; [split; [discriminate | intros (_ & H & _); discriminate H]
             | intros _; repeat split].
  - unfold main. rewrite He. cbn.
    split; [split; [discriminate | intros (H & _); discriminate H]
           | intros _; repeat split].
Qed.



(** ** The [codecs] object *)

Section CodecsFacts.

Lemma getOwn_setOwn_same o k v : getOwn (setOwn o k v) k = Some v.
Proof.
  induction o as [|[k' v'] o IH]; cbn [setOwn getOwn].
  - now rewrite String.eqb_refl.
  - destruct (k =? k') eqn:Hk; cbn [getOwn]; rewrite Hk; [reflexivity | exact IH].
Qed.

Lemma getOwn_setOwn_other o k v k' :
  k' <> k -> getOwn (setOwn o k v) k' = getOwn o k'.
Proof.
  intros Hne. induction o as [|[k0 v0] o IH]; cbn [setOwn getOwn].
  - apply String.eqb_neq in Hne. now rewrite Hne.
  - destruct (k =? k0) eqn:Hk; cbn [getOwn].
    + apply String.eqb_eq in Hk. subst k0.
      apply String.eqb_neq in Hne. now rewrite Hne.
    + destruct (k' =? k0); [reflexivity | exact IH].
Qed.

Lemma getOwn_countCodec o a k :
  getOwn (countCodec o a) k
  = if k =? a then bump a (getOwn o a) else getOwn o k.
Proof.
  destruct (k =? a) eqn:Hk.
  - apply String.eqb_eq in Hk. subst k. unfold countCodec, bump.
    destruct (getOwn o a) as [[|[|n]]|] eqn:Ho;
      try apply getOwn_setOwn_same.
    destruct (a =? "__proto__"); [exact Ho|].
    destruct (arrayIncludes objectPrototypeMethods a); apply getOwn_setOwn_same.
  - apply String.eqb_neq in Hk. unfold countCodec.
    destruct (getOwn o a) as [[|[|n]]|];
      try (now apply getOwn_setOwn_other).
    destruct (a =? "__proto__"); [reflexivity|].
    destruct (arrayIncludes objectPrototypeMethods a);
      now apply getOwn_setOwn_other.
Qed.

Lemma occurrences_cons k a l :
  occurrences k (a :: l)
  = if k =? a then S (occurrences k l) else occurrences k l.
Proof. unfold occurrences. cbn [filter]. now destruct (k =? a). Qed.

Lemma iter_shift {A} (f : A -> A) n x :
  Nat.iter n f (f x) = f (Nat.iter n f x).
Proof. induction n as [|n IH]; simpl; [reflexivity | now rewrite IH]. Qed.

Lemma getOwn_fold_countCodec l :
  forall o k,
    getOwn (fold_left countCodec l o) k
    = Nat.iter (occurrences k l) (bump k) (getOwn o k).
Proof.
  induction l as [|a l IH]; intros o k; [reflexivity|].
  cbn [fold_left]. rewrite IH, getOwn_countCodec, occurrences_cons.
  destruct (k =? a) eqn:Hk; [|reflexivity].
  apply String.eqb_eq in Hk. subst a. simpl. apply iter_shift.
Qed.

Lemma iter_bump_ordinary k n :
  ordinaryKey k = true ->
  Nat.iter n (bump k) None
  = match n with
    | O => None
    | S _ => Some (Count n)
    end.
Proof.
  intros Hk. unfold ordinaryKey in Hk. apply andb_true_iff in Hk as [Hp Hm].
  apply negb_true_iff in Hp, Hm.
  induction n as [|n IH]; [reflexivity|].
  simpl Nat.iter. rewrite IH. destruct n as [|n]; cbn [bump].
  - now rewrite Hp, Hm.
  - reflexivity.
Qed.

Lemma iter_bump_inherited k n :
  arrayIncludes objectPrototypeMethods k = true ->
  Nat.iter n (bump k) None
  = match n with
    | O => None
    | S O => Some NaN
    | S (S m) => Some (Count (S m))
    end.
Proof.
  intros Hm.
  assert (Hp : (k =? "__proto__") = false).
  { destruct (k =? "__proto__") eqn:Hp; [|reflexivity].
    apply String.eqb_eq in Hp. subst k. discriminate Hm. }
  induction n as [|n IH]; [reflexivity|].
  simpl Nat.iter. rewrite IH. destruct n as [|[|n]]; cbn [bump].
  - now rewrite Hp, Hm.
  - reflexivity.
  - reflexivity.
Qed.

Lemma iter_bump_proto n : Nat.iter n (bump "__proto__") None = None.
Proof. induction n as [|n IH]; [reflexivity|]. simpl. now rewrite IH. Qed.

(** The keys of an object stay distinct. *)
Lemma keys_setOwn o k v :
  map fst (setOwn o k v)
  = match getOwn o k with
    | Some _ => map fst o
    | None => (map fst o ++ [k])%list
    end.
Proof.
  induction o as [|[k' v'] o IH]; cbn [setOwn getOwn map app fst]; [reflexivity|].
  destruct (k =? k') eqn:Hk; cbn [map fst]; [reflexivity|].
  rewrite IH. now destruct (getOwn o k).
Qed.

Lemma getOwn_None_not_key o k : getOwn o k = None -> ~ In k (map fst o).
Proof.
  induction o as [|[k' v'] o IH]; cbn [getOwn map fst]; [intros _ []|].
  destruct (k =? k') eqn:Hk; [discriminate|].
  apply String.eqb_neq in Hk. intros Ho [Heq | Hin]; [congruence | now apply IH].
Qed.

Lemma NoDup_setOwn o k v :
  NoDup (map fst o) -> NoDup (map fst (setOwn o k v)).
Proof.
  intros Hnd. rewrite keys_setOwn. destruct (getOwn o k) eqn:Ho; [exact Hnd|].
  apply NoDup_app; [exact Hnd | constructor; [intros [] | constructor] |].
  intros x Hx [Heq | []]. subst x. now apply (getOwn_None_not_key o k).
Qed.

Lemma NoDup_countCodec o a :
  NoDup (map fst o) -> NoDup (map fst (countCodec o a)).
Proof.
  intros Hnd. unfold countCodec.
  destruct (getOwn o a) as [[|[|n]]|]; try now apply NoDup_setOwn.
  destruct (a =? "__proto__"); [exact Hnd|].
  destruct (arrayIncludes objectPrototypeMethods a); now apply NoDup_setOwn.
Qed.

Lemma NoDup_fold_countCodec l :
  forall o, NoDup (map fst o) -> NoDup (map fst (fold_left countCodec l o)).
Proof.
  induction l as [|a l IH]; intros o Hnd; [exact Hnd|].
  cbn [fold_left]. apply IH. now apply NoDup_countCodec.
Qed.

Lemma In_getOwn o k v :
  NoDup (map fst o) -> (In (k, v) o <-> getOwn o k = Some v).
Proof.
  induction o as [|[k' v'] o IH]; cbn [map fst getOwn In].
  - intros _. split; [intros [] | discriminate].
  - intros Hnd. inversion Hnd as [|x l Hnotin Hnd']; subst.
    destruct (k =? k') eqn:Hk.
    + apply String.eqb_eq in Hk. subst k'. split.
      * intros [Heq | Hin]; [congruence|].
        exfalso. apply Hnotin. apply in_map_iff. now exists (k, v).
      * intros Heq. left. congruence.
    + apply String.eqb_neq in Hk. rewrite <- (IH Hnd'). split.
      * intros [Heq | Hin]; [congruence | exact Hin].
      * intros Hin. now right.
Qed.

(** [Object.entries] lists the own properties, each once. *)
Lemma insertByIndex_perm e l : Permutation (insertByIndex e l) (e :: l).
Proof.
  induction l as [|e' l IH]; cbn [insertByIndex]; [reflexivity|].
  destruct (fst e <=? fst e')%N; [reflexivity|].
  rewrite IH. apply perm_swap.
Qed.

Lemma sort_perm l : Permutation (fold_right insertByIndex [] l) l.
Proof.
  induction l as [|e l IH]; cbn [fold_right]; [reflexivity|].
  rewrite insertByIndex_perm. now constructor.
Qed.

Lemma entries_perm o : Permutation (entries o) o.
Proof.
  unfold entries. rewrite sort_perm.
  induction o as [|kv o IH]; cbn [flat_map filter map app]; [reflexivity|].
  destruct (arrayIndex (fst kv)); cbn [app map snd].
  - now constructor.
  - rewrite <- Permutation_middle. now constructor.
Qed.

Lemma In_entries_fold l k v :
  In (k, v) (entries (fold_left countCodec l []))
  <-> Nat.iter (occurrences k l) (bump k) None = Some v.
Proof.
  pose proof (getOwn_fold_countCodec l [] k) as Hfold.
  cbn [getOwn] in Hfold. rewrite <- Hfold.
  rewrite <- In_getOwn by (apply NoDup_fold_countCodec; constructor).
  split; apply Permutation_in; [|symmetry]; apply entries_perm.
Qed.

Lemma printed_codecs_In results k v flag :
  In (k, v, flag) (Report.codecs (printReport results))
  <-> Nat.iter (occurrences k (map codec (successfulOf results))) (bump k) None
      = Some v
      /\ flag = codecUnsupported VIDVUR_UNSUPPORTED_CODECS (toLowerCase k).
Proof.
  unfold printReport. cbn [Report.codecs]. rewrite in_map_iff.
  rewrite <- In_entries_fold. split.
  - intros [[k' v'] [Heq Hin]]. cbn [fst snd] in Heq.
    injection Heq as -> -> <-. now split.
  - intros [Hin ->]. now exists (k, v).
Qed.

End CodecsFacts.

(** X7: for a codec name that [{}] does not inherit from
    [Object.prototype], the codec breakdown of the report has a line for the
    name exactly when some succeeded result has that codec, and the count of
    the line is the number of succeeded results with that codec; the mark of
    the line is the codec test of the rule list on the lower-cased name. *)
Theorem codec_line_counts_succeeded_results results k v flag :
  ordinaryKey k = true ->
  (In (k, v, flag) (Report.codecs (printReport results))
   <-> v = Count (occurrences k (map codec (successfulOf results)))
       /\ (0 < occurrences k (map codec (successfulOf results)))%nat
       /\ flag = codecUnsupported VIDVUR_UNSUPPORTED_CODECS (toLowerCase k)).
Proof.
  intros Hk. rewrite printed_codecs_In, (iter_bump_ordinary k _ Hk).
  destruct (occurrences k (map codec (successfulOf results))) as [|n].
  - split; [intros [H _]; discriminate | intros (_ & H & _); lia].
  - split.
    + intros [H ->]. injection H as <-. repeat split. lia.
    + intros (-> & _ & ->). now split.
Qed.

Lemma codec_line_counts_succeeded_results_witness :
  ordinaryKey "h264" = true
  /\ In ("h264", Count 2, false)
        (Report.codecs
           (printReport [sampleEntry "a.mp4" "h264" 120;
                         Failed "broken.avi" "Could not detect video codec";
                         sampleEntry "b.mp4" "h264" 180])).
Proof.
  split; [reflexivity|].
  apply (proj2 (codec_line_counts_succeeded_results
                  [sampleEntry "a.mp4" "h264" 120;
                   Failed "broken.avi" "Could not detect video codec";
                   sampleEntry "b.mp4" "h264" 180]
                  "h264" (Count 2) false eq_refl)).
  split; [reflexivity | split; [vm_compute; lia | reflexivity]].
Defined.

(** X8: a codec name that is the name of a method inherited from
    [Object.prototype] is counted one short: its line shows [NaN] when one
    succeeded result has that codec and the number of such results less one
    when there are more; the name ["__proto__"] never gets a line. *)
Theorem inherited_codec_names_are_miscounted results k v flag :
  (arrayIncludes objectPrototypeMethods k = true ->
   (In (k, v, flag) (Report.codecs (printReport results))
    <-> ((occurrences k (map codec (successfulOf results)) = 1%nat /\ v = NaN)
         \/ ((2 <= occurrences k (map codec (successfulOf results)))%nat
             /\ v = Count (occurrences k (map codec (successfulOf results)) - 1)))
        /\ flag = codecUnsupported VIDVUR_UNSUPPORTED_CODECS (toLowerCase k)))
  /\ ~ In ("__proto__", v, flag) (Report.codecs (printReport results)).
Proof.
  split.
  - intros Hk. rewrite printed_codecs_In, (iter_bump_inherited k _ Hk).
    destruct (occurrences k (map codec (successfulOf results))) as [|[|n]].
    + split; [intros [H _]; discriminate | intros [[[H _] | [H _]] _]; lia].
    + split.
      * intros [H ->]. injection H as <-. split; [left; now split | reflexivity].
      * intros [[[_ ->] | [H _]] ->]; [now split | lia].
    + split.
      * intros [H ->]. injection H as <-.
        split; [right; split; [lia | f_equal; lia] | reflexivity].
      * intros [[[H _] | [_ ->]] ->]; [lia|].
        split; [f_equal; f_equal; lia | reflexivity].
  - rewrite printed_codecs_In, iter_bump_proto. intros [H _]. discriminate.
Qed.

Lemma inherited_codec_names_are_miscounted_witness :
  arrayIncludes objectPrototypeMethods "constructor" = true
  /\ In ("constructor", NaN, false)
        (Report.codecs (printReport [sampleEntry "a.mp4" "constructor" 120])).
Proof.
  split; [reflexivity|].
  apply (proj2 (proj1 (inherited_codec_names_are_miscounted
                         [sampleEntry "a.mp4" "constructor" 120]
                         "constructor" NaN false) eq_refl)).
  split; [left; now split | reflexivity].
Defined.

Section TotalsFacts.

Lemma objectTotal_setOwn o k v :
  (objectTotal (setOwn o k v)
   + match getOwn o k with
     | Some c => countValue c
     | None => 0
     end
   = objectTotal o + countValue v)%nat.
Proof.
  unfold objectTotal.
  induction o as [|[k' v'] o IH]; simpl.
  - lia.
  - destruct (k =? k'); simpl; lia.
Qed.

Lemma objectTotal_countCodec o a :
  ordinaryKey a = true ->
  objectTotal (countCodec o a) = S (objectTotal o).
Proof.
  intros Hk. unfold ordinaryKey in Hk. apply andb_true_iff in Hk as [Hp Hm].
  apply negb_true_iff in Hp, Hm. unfold countCodec.
  destruct (getOwn o a) as [[|[|n]]|] eqn:Ho.
  - pose proof (objectTotal_setOwn o a (Count 1)) as H.
    rewrite Ho in H. cbn [countValue] in H. lia.
  - pose proof (objectTotal_setOwn o a (Count 1)) as H.
    rewrite Ho in H. cbn [countValue] in H. lia.
  - pose proof (objectTotal_setOwn o a (Count (S (S n)))) as H.
    rewrite Ho in H. cbn [countValue] in H. lia.
  - rewrite Hp, Hm.
    pose proof (objectTotal_setOwn o a (Count 1)) as H.
    rewrite Ho in H. cbn [countValue] in H. lia.
Qed.

Lemma objectTotal_fold l :
  forall o,
    (forall k, In k l -> ordinaryKey k = true) ->
    objectTotal (fold_left countCodec l o) = (length l + objectTotal o)%nat.
Proof.
  induction l as [|a l IH]; intros o Hall; [reflexivity|].
  cbn [fold_left length]. rewrite IH by (intros k Hk; apply Hall; now right).
  rewrite objectTotal_countCodec by (apply Hall; now left). lia.
Qed.

Lemma objectTotal_perm o o' :
  Permutation o o' -> objectTotal o = objectTotal o'.
Proof.
  unfold objectTotal.
  induction 1; simpl; lia.
Qed.

Lemma filter_partition_length {A} (f : A -> bool) l :
  (length (filter f l) + length (filter (fun x => negb (f x)) l)
   = length l)%nat.
Proof.
  induction l as [|x l IH]; cbn [filter]; [reflexivity|].
  destruct (f x); cbn [negb length]; lia.
Qed.

Lemma successfulOf_length results :
  length (successfulOf results) = length (filter success results).
Proof.
  induction results as [|[p | name err] rs IH]; simpl; [reflexivity | |]; lia.
Qed.

End TotalsFacts.

(** X9: every codec has at most one line in the codec breakdown, and when no
    succeeded result has a codec named like a member of [Object.prototype]
    the counts of the lines add up to the number of succeeded results. *)
Theorem codec_lines_distinct_and_complete results :
  NoDup (map (fun line => fst (fst line)) (Report.codecs (printReport results)))
  /\ ((forall p, In p (successfulOf results) -> ordinaryKey (codec p) = true) ->
      countsTotal (Report.codecs (printReport results))
      = length (successfulOf results)).
Proof.
  unfold printReport. cbn [Report.codecs].
  set (o := fold_left countCodec (map codec (successfulOf results)) []).
  split.
  - rewrite map_map. cbn [fst].
    apply (Permutation_NoDup (l := map fst o)).
    + apply Permutation_map. symmetry. apply entries_perm.
    + apply NoDup_fold_countCodec. constructor.
  - intros Hall. unfold countsTotal. rewrite map_map. cbn [fst snd].
    change (objectTotal (entries o) = length (successfulOf results)).
    rewrite (objectTotal_perm _ _ (entries_perm o)). unfold o.
    rewrite objectTotal_fold.
    + rewrite length_map. cbn. lia.
    + intros k Hk. apply in_map_iff in Hk as [p [<- Hp]]. now apply Hall.
Qed.

(** X10: the counts of the summary add up: every result is either among the
    succeeded or among the failed ones, and every succeeded result is either
    one that VidVuR would convert or one that needs no conversion. *)
Theorem report_counts_add_up results :
  (length (Report.successful (printReport results))
   + length (Report.failed (printReport results))
   = Report.total (printReport results))%nat
  /\ (length (Report.wouldConvert (printReport results))
      + length (Report.noConversionNeeded (printReport results))
      = length (Report.successful (printReport results)))%nat
  /\ (forall r, In r (Report.failed (printReport results)) <->
                In r results /\ success r = false)
  /\ (forall p, In p (Report.wouldConvert (printReport results)) <->
                In (Succeeded p) results /\ wouldConvert p = true).
Proof.
  unfold printReport.
  cbn [Report.successful Report.failed Report.total Report.wouldConvert
       Report.noConversionNeeded].
  split; [|split; [|split]].
  - rewrite successfulOf_length. apply filter_partition_length.
  - apply filter_partition_length.
  - intros r. rewrite filter_In. now rewrite negb_true_iff.
  - intros p. rewrite filter_In. unfold successfulOf. rewrite in_flat_map.
    split.
    + intros [[r [Hr Hp]] Hw]. split; [|exact Hw].
      destruct r as [q | name err]; [|destruct Hp].
      destruct Hp as [<- | []]. exact Hr.
    + intros [Hin Hw]. split; [|exact Hw].
      exists (Succeeded p). split; [exact Hin | now left].
Qed.

(** ** The report under a change of order *)

Section OrderFacts.

Lemma filter_length_perm {A} (f : A -> bool) l l' :
  Permutation l l' -> length (filter f l) = length (filter f l').
Proof.
  induction 1 as [| x l l' _ IH | x y l | l l' l'' _ IH1 _ IH2];
    cbn [filter]; [reflexivity | | | congruence].
  - destruct (f x); cbn [length]; now rewrite IH.
  - destruct (f x), (f y); reflexivity.
Qed.

Lemma successfulOf_perm results results' :
  Permutation results results' ->
  Permutation (successfulOf results) (successfulOf results').
Proof.
  induction 1 as [| r l l' _ IH | r1 r2 l | l l' l'' _ IH1 _ IH2];
    cbn [successfulOf flat_map].
  - reflexivity.
  - now apply Permutation_app_head.
  - destruct r1, r2; cbn [app]; try reflexivity. apply perm_swap.
  - now transitivity (successfulOf l').
Qed.

Lemma totalLoadTime_perm l l' :
  Permutation l l' -> totalLoadTime l = totalLoadTime l'.
Proof. induction 1; cbn [totalLoadTime]; lia. Qed.

Lemma occurrences_perm k l l' :
  Permutation l l' -> occurrences k l = occurrences k l'.
Proof. apply filter_length_perm. Qed.

End OrderFacts.

Section SumFacts.

Lemma loadTimeMagnitude_perm l l' :
  Permutation l l' -> loadTimeMagnitude l = loadTimeMagnitude l'.
Proof. induction 1; cbn [loadTimeMagnitude]; lia. Qed.

Lemma loadTimeMagnitude_not_negative l : (0 <= loadTimeMagnitude l)%Z.
Proof. induction l as [|r l IH]; cbn [loadTimeMagnitude]; lia. Qed.

Lemma loadTimeMagnitude_firstn k :
  forall l, (loadTimeMagnitude (firstn k l) <= loadTimeMagnitude l)%Z.
Proof.
  induction k as [|k IH]; intros [|r l]; cbn [firstn loadTimeMagnitude];
    try lia.
  - pose proof (loadTimeMagnitude_not_negative l). lia.
  - specialize (IH l). lia.
Qed.

Lemma totalLoadTime_within_magnitude l :
  (Z.abs (totalLoadTime l) <= loadTimeMagnitude l)%Z.
Proof.
  induction l as [|r l IH]; cbn [totalLoadTime loadTimeMagnitude]; lia.
Qed.

(** The sum that line 197 has reached after [k] of the entries. *)
Lemma partial_sum_within_magnitude k l :
  (Z.abs (sumLoadTime (firstn k l)) <= loadTimeMagnitude l)%Z.
Proof.
  rewrite sumLoadTime_total.
  pose proof (totalLoadTime_within_magnitude (firstn k l)).
  pose proof (loadTimeMagnitude_firstn k l). lia.
Qed.

End SumFacts.

(** X11: the order of the results does not matter to the summary, as long
    as the load times are small enough for line 197 to add them without
    rounding.  When the magnitudes of the load times of the succeeded
    results add up to at most 2^53, every sum that line 197 reaches on the
    way is an integer of at most 2^53 in magnitude, in the one order as in
    the other, so that the additions of doubles are exact; and two runs
    whose results are the same up to their order then report the same
    total, the same numbers of succeeded, failed and would-convert results,
    the same average load time and the same codec lines. *)
Theorem report_is_order_independent results results' :
  Permutation results results' ->
  (loadTimeMagnitude (successfulOf results) <= 2 ^ 53)%Z ->
  (forall k,
      (Z.abs (sumLoadTime (firstn k (successfulOf results))) <= 2 ^ 53)%Z
      /\ (Z.abs (sumLoadTime (firstn k (successfulOf results'))) <= 2 ^ 53)%Z)
  /\ Report.total (printReport results) = Report.total (printReport results')
  /\ length (Report.successful (printReport results))
     = length (Report.successful (printReport results'))
  /\ length (Report.failed (printReport results))
     = length (Report.failed (printReport results'))
  /\ length (Report.wouldConvert (printReport results))
     = length (Report.wouldConvert (printReport results'))
  /\ Report.avgLoadTime (printReport results)
     = Report.avgLoadTime (printReport results')
  /\ (forall line,
        In line (Report.codecs (printReport results))
        <-> In line (Report.codecs (printReport results'))).
Proof.
  intros Hp Hbound. pose proof (successfulOf_perm _ _ Hp) as Hs.
  split; [|split; [|split; [|split; [|split; [|split]]]]].
  - intros k. split.
    + pose proof (partial_sum_within_magnitude k (successfulOf results)). lia.
    + pose proof (partial_sum_within_magnitude k (successfulOf results')).
      rewrite <- (loadTimeMagnitude_perm _ _ Hs) in H. lia.
  - cbn. now apply Permutation_length.
  - cbn. now apply Permutation_length.
  - cbn. now apply filter_length_perm.
  - cbn. now apply filter_length_perm.
  - rewrite !avgLoadTime_unfold, !sumLoadTime_total.
    rewrite (totalLoadTime_perm _ _ Hs), (Permutation_length Hs).
    destruct (successfulOf results) as [|p ps] eqn:H1;
      destruct (successfulOf results') as [|p' ps'] eqn:H2;
      try reflexivity.
    + apply Permutation_length in Hs. discriminate Hs.
    + apply Permutation_length in Hs. discriminate Hs.
  - intros [[k v] flag]. rewrite !printed_codecs_In.
    now rewrite (occurrences_perm k _ _ (Permutation_map codec Hs)).
Qed.

Lemma report_is_order_independent_witness :
  Permutation [sampleEntry "a.mp4" "h264" 120;
               Failed "broken.avi" "Could not detect video codec";
               sampleEntry "b.mp4" "h264" 180]
              [Failed "broken.avi" "Could not detect video codec";
               sampleEntry "a.mp4" "h264" 120;
               sampleEntry "b.mp4" "h264" 180]
  /\ (loadTimeMagnitude
        (successfulOf [sampleEntry "a.mp4" "h264" 120;
                       Failed "broken.avi" "Could not detect video codec";
                       sampleEntry "b.mp4" "h264" 180]) <= 2 ^ 53)%Z
  /\ Report.avgLoadTime
       (printReport [sampleEntry "a.mp4" "h264" 120;
                     Failed "broken.avi" "Could not detect video codec";
                     sampleEntry "b.mp4" "h264" 180])
     = Report.avgLoadTime
         (printReport [Failed "broken.avi" "Could not detect video codec";
                       sampleEntry "a.mp4" "h264" 120;
                       sampleEntry "b.mp4" "h264" 180]).
Proof.
  assert (Hbound : (loadTimeMagnitude
                      (successfulOf
                         [sampleEntry "a.mp4" "h264" 120;
                          Failed "broken.avi" "Could not detect video codec";
                          sampleEntry "b.mp4" "h264" 180]) <= 2 ^ 53)%Z)
    by (vm_compute; discriminate).
  split; [apply perm_swap|]. split; [exact Hbound|].
  exact (proj1 (proj2 (proj2 (proj2 (proj2 (proj2
           (report_is_order_independent _ _
              (perm_swap (Failed "broken.avi" "Could not detect video codec")
                         (sampleEntry "a.mp4" "h264" 120)
                         [sampleEntry "b.mp4" "h264" 180])
              Hbound))))))).
Defined.

(** ** When a probe succeeds, and how it fails *)

Section OutcomeFacts.





End OutcomeFacts.




(** ** Invariants of a batch *)

Section BatchFacts.

Variable rt : runtime.

Lemma classify_agrees rules formats codecName ext :
  (snd (classify rules formats codecName ext) = Some UnsupportedCodec
   <-> codecUnsupported rules (toLowerCase codecName) = true)
  /\ (snd (classify rules formats codecName ext) = None
      <-> fst (classify rules formats codecName ext) = false).
Proof.
  unfold classify, UnsupportedCodec, UnsupportedContainer.
  destruct (codecUnsupported rules (toLowerCase codecName));
    destruct (arrayIncludes formats ext); cbn;
    repeat split; intros H; try reflexivity; discriminate H.
Qed.

Lemma builtAfter_agrees h filePath p :
  builtAfter rt h filePath = inr p ->
  verdictAgrees (Succeeded p)
  /\ loadTime p = (now rt (h ++ [DateNow; Load filePath])%list - now rt h)%Z.
Proof.
  intros Hb. apply buildResult_fields in Hb.
  destruct Hb as (_ & _ & Ht & _ & _ & _ & _ & Hv).
  split; [|exact Ht]. cbn [verdictAgrees].
  pose proof (f_equal fst Hv) as Hw. pose proof (f_equal snd Hv) as Hr.
  cbn [fst snd] in Hw, Hr. rewrite Hw, Hr. apply classify_agrees.
Qed.

(** One call of [testVideo], with what it keeps. *)
Lemma testVideo_step filePath st :
  exists r evs,
    testVideo rt filePath st
    = (Returns (success r),
       {| history := (history st ++ evs)%list;
          results := (results st ++ [r])%list |})
    /\ verdictAgrees r
    /\ (forall p, r = Succeeded p ->
          loadTime p
          = (now rt (history st ++ [DateNow; Load filePath])%list
             - now rt (history st))%Z)
    /\ (evs = [DateNow; Load filePath] \/ evs = probeEvents filePath).
Proof.
  destruct (loadOutcome rt (history st ++ [DateNow])%list filePath)
    as [rej |] eqn:Hload.
  - exists (Failed (basename rt filePath) (errorMsg (Rejected rej))),
      [DateNow; Load filePath].
    rewrite (testVideo_load_rejected rt filePath st rej Hload).
    repeat split; [discriminate | now left].
  - exists (stored rt filePath (builtAfter rt (history st) filePath)),
      (probeEvents filePath).
    rewrite (testVideo_load_resolved rt filePath st Hload). cbn zeta.
    split; [reflexivity|].
    destruct (builtAfter rt (history st) filePath) as [e | p] eqn:Hb;
      cbn [stored].
    + repeat split; [discriminate | now right].
    + destruct (builtAfter_agrees _ _ _ Hb) as [Hv Ht].
      split; [exact Hv|]. split; [|now right].
      intros q Hq. injection Hq as <-. exact Ht.
Qed.


Lemma testEach_keeps (P : result -> Prop) files :
  (forall file st r evs,
      testVideo rt file st
      = (Returns (success r),
         {| history := (history st ++ evs)%list;
            results := (results st ++ [r])%list |}) ->
      P r) ->
  forall st,
    Forall P (results st) ->
    Forall P (results (snd (testEach rt files st))).
Proof.
  intros Hstep. induction files as [|file rest IH]; intros st Hall; [exact Hall|].
  destruct (testVideo_step file st) as [r [evs [Hrun _]]].
  cbn [testEach]. unfold bind. rewrite Hrun. apply IH. cbn [results].
  apply Forall_app. split; [exact Hall|].
  constructor; [now apply (Hstep file st r evs) | constructor].
Qed.

Lemma testVideo_run_unique file st r evs r' evs' :
  testVideo rt file st
  = (Returns (success r),
     {| history := (history st ++ evs)%list;
        results := (results st ++ [r])%list |}) ->
  testVideo rt file st
  = (Returns (success r'),
     {| history := (history st ++ evs')%list;
        results := (results st ++ [r'])%list |}) ->
  r = r'.
Proof.
  intros H1 H2. rewrite H1 in H2. injection H2 as _ _ H.
  apply app_inv_head in H. now injection H.
Qed.

End BatchFacts.



(** X16: every succeeded result of a batch has verdict fields that agree
    with each other and with the codec test: its reason is "Unsupported
    codec" exactly when the rule list matches its lower-cased codec, and it
    has no reason exactly when [wouldConvert] is false.  So the mark that
    the codec breakdown of the report puts on a codec is set exactly for the
    results stored with the reason "Unsupported codec". *)
Theorem report_marks_agree_with_stored_reasons rt files st :
  Forall verdictAgrees (results st) ->
  Forall verdictAgrees (results (snd (testEach rt files st)))
  /\ (forall p v flag,
        In (Succeeded p) (results (snd (testEach rt files st))) ->
        In (codec p, v, flag)
           (Report.codecs (printReport (results (snd (testEach rt files st))))) ->
        (flag = true <-> reason p = Some UnsupportedCodec)).
Proof.
  intros Hall.
  assert (Hkept : Forall verdictAgrees (results (snd (testEach rt files st)))).
  { apply testEach_keeps; [|exact Hall].
    intros file s r evs Hrun.
    destruct (testVideo_step rt file s) as [r' [evs' [Hrun' [Hv _]]]].
    now rewrite (testVideo_run_unique rt file s r evs r' evs' Hrun Hrun'). }
  split; [exact Hkept|].
  intros p v flag Hp Hline.
  rewrite Forall_forall in Hkept. specialize (Hkept _ Hp).
  cbn [verdictAgrees] in Hkept. destruct Hkept as [Hc _].
  apply printed_codecs_In in Hline as [_ ->]. now rewrite Hc.
Qed.

Lemma report_marks_agree_with_stored_reasons_witness :
  Forall verdictAgrees (results initialState)
  /\ Forall verdictAgrees
       (results (snd (testEach sampleRuntime
                        ["videos/missing.avi"; "videos/old.MOV"] initialState))).
Proof.
  split; [constructor|].
  exact (proj1 (report_marks_agree_with_stored_reasons
                  sampleRuntime ["videos/missing.avi"; "videos/old.MOV"]
                  initialState (Forall_nil _))).
Defined.

(** X17: when the clock never goes back, no load time stored by a batch is
    negative. *)
Theorem loadTime_not_negative_on_monotone_clock rt files st :
  (forall h1 h2, (now rt h1 <= now rt (h1 ++ h2)%list)%Z) ->
  Forall loadTimeNotNegative (results st) ->
  Forall loadTimeNotNegative (results (snd (testEach rt files st))).
Proof.
  intros Hmono. apply testEach_keeps.
  intros file s r evs Hrun.
  destruct (testVideo_step rt file s) as [r' [evs' [Hrun' (_ & Ht & _)]]].
  rewrite (testVideo_run_unique rt file s r evs r' evs' Hrun Hrun').
  destruct r' as [p | name err]; cbn [loadTimeNotNegative]; [|exact I].
  rewrite (Ht p eq_refl).
  specialize (Hmono (history s) [DateNow; Load file]). lia.
Qed.

Lemma loadTime_not_negative_on_monotone_clock_witness :
  (forall h1 h2,
      (now countingRuntime h1 <= now countingRuntime (h1 ++ h2)%list)%Z)
  /\ Forall loadTimeNotNegative (results initialState)
  /\ Forall loadTimeNotNegative
       (results (snd (testEach countingRuntime ["videos/clip.mp4"] initialState))).
Proof.
  assert (Hmono : forall h1 h2,
             (now countingRuntime h1 <= now countingRuntime (h1 ++ h2)%list)%Z).
  { intros h1 h2. simpl. rewrite length_app. lia. }
  split; [exact Hmono|]. split; [constructor|].
  exact (loadTime_not_negative_on_monotone_clock
           countingRuntime ["videos/clip.mp4"] initialState Hmono (Forall_nil _)).
Defined.

(** ** Rule entries and letter case *)

Section LetterCaseFacts.

Lemma toLowerCase_app s t :
  toLowerCase (s ++ t) = toLowerCase s ++ toLowerCase t.
Proof. induction s as [|c s IH]; simpl; [reflexivity | now rewrite IH]. Qed.

Lemma length_toLowerCase s : String.length (toLowerCase s) = String.length s.
Proof. induction s as [|c s IH]; simpl; [reflexivity | now rewrite IH]. Qed.

Lemma append_inv_same_length pre :
  forall pre' x y,
    String.length pre = String.length pre' ->
    pre ++ x = pre' ++ y -> pre = pre' /\ x = y.
Proof.
  induction pre as [|c pre IH]; intros [|c' pre'] x y Hlen Heq;
    try discriminate Hlen.
  - now split.
  - simpl in Hlen, Heq. injection Hlen as Hlen. injection Heq as -> Heq.
    destruct (IH pre' x y Hlen Heq) as [-> ->]. now split.
Qed.

Lemma append_inv_same_length_tail x :
  forall y post post',
    String.length x = String.length y ->
    x ++ post = y ++ post' -> x = y.
Proof.
  intros y post post' Hlen Heq.
  now destruct (append_inv_same_length x y post post' Hlen Heq).
Qed.

(** Whatever occurs in a lower-cased string is in lower case. *)
Lemma substring_of_lower_is_lower sub codecName :
  Substring sub (toLowerCase codecName) -> toLowerCase sub = sub.
Proof.
  intros [pre [post Heq]].
  pose proof (f_equal toLowerCase Heq) as H.
  rewrite toLowerCase_idem, Heq, !toLowerCase_app in H.
  apply append_inv_same_length in H as [_ H];
    [|symmetry; apply length_toLowerCase].
  symmetry. apply append_inv_same_length_tail in H; [exact H|].
  symmetry. apply length_toLowerCase.
Qed.

Lemma replaceFirstDigit_lower_inv u :
  replaceFirstDigit (toLowerCase u) = replaceFirstDigit u ->
  toLowerCase u = u.
Proof.
  induction u as [|c u IH]; simpl; [reflexivity|].
  rewrite isDigit_lowerUnit. destruct (isDigit c).
  - intros H. now injection H as -> ->.
  - intros H. injection H as -> H. now rewrite (IH H).
Qed.

Lemma rule_not_lower_never_matches u codecName :
  isLowerCase u = false ->
  includes (toLowerCase codecName) u
  || includes (toLowerCase codecName) (normalized u) = false.
Proof.
  intros Hu. apply String.eqb_neq in Hu. apply orb_false_iff. split.
  - destruct (includes (toLowerCase codecName) u) eqn:H; [|reflexivity].
    apply includes_spec, substring_of_lower_is_lower in H. contradiction.
  - destruct (includes (toLowerCase codecName) (normalized u)) eqn:H;
      [|reflexivity].
    apply includes_spec, substring_of_lower_is_lower in H.
    unfold normalized in H. rewrite toLowerCase_replaceFirstDigit in H.
    apply replaceFirstDigit_lower_inv in H. contradiction.
Qed.

Lemma codecUnsupported_lower_rules rules codecName :
  codecUnsupported rules (toLowerCase codecName)
  = codecUnsupported (filter isLowerCase rules) (toLowerCase codecName).
Proof.
  unfold codecUnsupported.
  induction rules as [|u rules IH]; cbn [existsb filter]; [reflexivity|].
  destruct (isLowerCase u) eqn:Hu; cbn [existsb].
  - now rewrite IH.
  - now rewrite (rule_not_lower_never_matches u codecName Hu), IH.
Qed.

Lemma arrayIncludes_lower_formats formats ext :
  arrayIncludes formats (toLowerCase ext)
  = arrayIncludes (filter isLowerCase formats) (toLowerCase ext).
Proof.
  unfold arrayIncludes.
  induction formats as [|f formats IH]; cbn [existsb filter]; [reflexivity|].
  destruct (isLowerCase f) eqn:Hf; cbn [existsb]; rewrite IH; [reflexivity|].
  destruct (toLowerCase ext =? f) eqn:He; [|reflexivity].
  apply String.eqb_eq in He. subst f.
  unfold isLowerCase in Hf. rewrite toLowerCase_idem, String.eqb_refl in Hf.
  discriminate Hf.
Qed.

End LetterCaseFacts.

(** X18: only the probed codec and the extension are lower-cased, the
    entries of the two lists are compared as they are written: an entry
    that holds an upper-case letter can never match, so that removing every
    such entry from the lists changes no verdict. *)
Theorem entries_not_in_lower_case_never_match rules formats codecName rawExt :
  classify rules formats codecName (toLowerCase rawExt)
  = classify (filter isLowerCase rules) (filter isLowerCase formats)
             codecName (toLowerCase rawExt).
Proof.
  unfold classify.
  now rewrite <- codecUnsupported_lower_rules, <- arrayIncludes_lower_formats.
Qed.

(** The rule "H263" against the codec "h263". *)
Example upper_case_rule_is_dead :
  classify ["H263"] [".MOV"] "h263" (toLowerCase ".MOV") = (false, None).
Proof. reflexivity. Qed.
